(** * Session lifecycle and authenticated gateway of the Nexus React client

    A shallow embedding of [src/context/AuthContext.tsx] (the provider that
    owns the JWT token, the fetched user, the loading flag and the login
    error) and of [src/hooks/useApi.ts] (the [apiFetch] gateway), followed
    by the properties of the session and of the gateway.

    The provider exists in two revisions in the source tree; the one
    embedded here is the later one, which carries [loginError] and wraps
    the storage accesses of [login] and [logout] in [try]/[catch].

    Around this core the file also embeds the earlier revision of the
    provider ([Rev1]), the routing of [App] with [PrivateRoute] and
    [LoginPage], and the handlers of [LoginForm], [NexusInputBar],
    [DashboardPage], [CompanyTable] and [CompanyForm], each with the
    properties its code shows.

    Conventions of the embedding:
    - a React state cell is a record field, a setter is a record update;
    - an [async] function is cut at its [await]: the part before it runs
      inside the event that calls it, the part after it runs when the
      environment delivers the awaited outcome;
    - the setter calls of one handler are applied together, and the effect
      with dependency list [[token, fetchUser]] runs again exactly when the
      committed [token] differs from the one of the previous render
      ([fetchUser] is memoised with an empty dependency list, so it never
      changes); an effect runs once per commit, as in a production build
      (the second, development-only run that [React.StrictMode] adds on
      mount is not modelled);
    - [console.log] and [console.error] have no effect on the state and are
      left out;
    - a JavaScript string is held as the bytes of its UTF-8 form; ASCII
      text is text whose bytes are all below 128. *)

From Stdlib Require Import String Ascii List Bool NArith Arith Lia DecimalString.
Import ListNotations.
Open Scope string_scope.

(** ** JavaScript values, truthiness and completion records *)

(** Values that cross the boundary with the server as JSON, plus
    [undefined] (a missing property).  Numbers are kept to naturals: the
    code never computes with them. *)
#[warnings="-register-all"]
Inductive JsVal : Type :=
| JUndefined
| JNull
| JBool (b : bool)
| JNum (n : N)
| JStr (s : string)
| JArr (items : list JsVal)
| JObj (fields : list (string * JsVal)).

(** What a function call can throw.  [JsError arg] is [new Error(arg)]. *)
Inductive Exn : Type :=
| JsError (arg : JsVal)
| TypeError (msg : string)
| SyntaxError (msg : string).

(** Outcome of evaluating an expression or a block: a value, or a throw. *)
Inductive JsResult (A : Type) : Type :=
| Returns (a : A)
| Throws (e : Exn).
Arguments Returns {A} a.
Arguments Throws {A} e.

Definition bind {A B} (r : JsResult A) (k : A -> JsResult B) : JsResult B :=
  match r with
  | Returns a => k a
  | Throws e => Throws e
  end.

Notation "x <- r ;; k" := (bind r (fun x => k))
  (at level 61, r at next level, right associativity).

(** [try { body } catch (e) { handler(e) }] *)
Definition try_catch {A} (body : JsResult A) (handler : Exn -> JsResult A)
  : JsResult A :=
  match body with
  | Returns a => Returns a
  | Throws e => handler e
  end.

(** Truthiness of a [string | null] and of a JSON value. *)
Definition truthy_str (s : string) : bool := negb (s =? "").

Definition truthy_token (t : option string) : bool :=
  match t with
  | Some s => truthy_str s
  | None => false
  end.

Definition truthy (v : JsVal) : bool :=
  match v with
  | JUndefined | JNull => false
  | JBool b => b
  | JNum n => negb (n =? 0)%N
  | JStr s => truthy_str s
  | JArr _ | JObj _ => true
  end.

(** [a || b] on values and on strings. *)
Definition js_or (a b : JsVal) : JsVal := if truthy a then a else b.
Definition str_or (a b : string) : string := if truthy_str a then a else b.

Fixpoint assoc (key : string) (fields : list (string * JsVal)) : JsVal :=
  match fields with
  | [] => JUndefined
  | (k, v) :: rest => if k =? key then v else assoc key rest
  end.

(** [v.key] for a data property: a [TypeError] on [null] and [undefined],
    [undefined] on a primitive, an array or an object without the key. *)
Definition get_prop (v : JsVal) (key : string) : JsResult JsVal :=
  match v with
  | JUndefined | JNull => Throws (TypeError "Cannot read properties")
  | JObj fields => Returns (assoc key fields)
  | _ => Returns JUndefined
  end.

(** ** ASCII case mapping

    [toLowerCase] and [toUpperCase] on ASCII text.  Header names are ASCII
    and are matched by their lower-case form; a property that depends on
    the case of any other string is stated for ASCII text. *)

Definition lower_ascii (c : ascii) : ascii :=
  let n := N_of_ascii c in
  if ((65 <=? n) && (n <=? 90))%N then ascii_of_N (n + 32) else c.

Definition upper_ascii (c : ascii) : ascii :=
  let n := N_of_ascii c in
  if ((97 <=? n) && (n <=? 122))%N then ascii_of_N (n - 32) else c.

Fixpoint map_string (f : ascii -> ascii) (s : string) : string :=
  match s with
  | EmptyString => EmptyString
  | String c rest => String (f c) (map_string f rest)
  end.

Definition toLowerCase : string -> string := map_string lower_ascii.
Definition toUpperCase : string -> string := map_string upper_ascii.

(** ** The [Headers] object

    A header list in insertion order; names are matched without regard to
    ASCII case.  The list a caller passes in [options.headers] is taken to
    hold legal names and values that are already normalised; what [set]
    is given is converted, normalised and checked as the platform does:
    a value with a character above U+00FF is not a [ByteString], white
    space around the value is stripped, and a name that is not a token or
    a value that holds NUL, CR or LF is refused.  Every refusal is a
    [TypeError]; its message differs between engines and no property
    depends on it. *)
Module Headers.

Definition t : Type := list (string * string).

Definition same_name (a b : string) : bool :=
  toLowerCase a =? toLowerCase b.

Definition has (h : t) (name : string) : bool :=
  existsb (fun p => same_name (fst p) name) h.

Definition append (h : t) (name value : string) : t :=
  (h ++ [(name, value)])%list.

Definition delete (h : t) (name : string) : t :=
  filter (fun p => negb (same_name (fst p) name)) h.

(** HTTP white space: tab, line feed, carriage return, space. *)
Definition is_http_whitespace (c : ascii) : bool :=
  let n := N_of_ascii c in
  ((n =? 9) || (n =? 10) || (n =? 13) || (n =? 32))%N.

Fixpoint strip_leading (s : string) : string :=
  match s with
  | EmptyString => EmptyString
  | String c rest => if is_http_whitespace c then strip_leading rest else s
  end.

Fixpoint strip_trailing (s : string) : string :=
  match s with
  | EmptyString => EmptyString
  | String c rest =>
      match strip_trailing rest with
      | EmptyString => if is_http_whitespace c then EmptyString
                       else String c EmptyString
      | kept => String c kept
      end
  end.

(** The value as the header list stores it. *)
Definition normalize (value : string) : string :=
  strip_trailing (strip_leading value).

(** A string converts to a [ByteString] when none of its characters is
    above U+00FF: in UTF-8, a byte below 128, or a lead byte C2 or C3
    followed by its continuation byte. *)
Fixpoint byte_string (s : string) : bool :=
  match s with
  | EmptyString => true
  | String c rest =>
      if (N_of_ascii c <? 128)%N then byte_string rest
      else
        match rest with
        | EmptyString => false
        | String d rest' =>
            ((N_of_ascii c =? 194) || (N_of_ascii c =? 195))%N
            && ((128 <=? N_of_ascii d) && (N_of_ascii d <=? 191))%N
            && byte_string rest'
        end
  end.

(** A normalised value is legal when it holds no NUL, LF or CR. *)
Definition forbidden_in_value (c : ascii) : bool :=
  let n := N_of_ascii c in
  ((n =? 0) || (n =? 10) || (n =? 13))%N.

Fixpoint legal_value (s : string) : bool :=
  match s with
  | EmptyString => true
  | String c rest => negb (forbidden_in_value c) && legal_value rest
  end.

(** A name is legal when it is a non-empty HTTP token. *)
Definition is_token_char (c : ascii) : bool :=
  let n := N_of_ascii c in
  (((48 <=? n) && (n <=? 57)) || ((65 <=? n) && (n <=? 90))
   || ((97 <=? n) && (n <=? 122))
   || existsb (N.eqb n)
        [33; 35; 36; 37; 38; 39; 42; 43; 45; 46; 94; 95; 96; 124; 126])%N.

Fixpoint all_token_chars (s : string) : bool :=
  match s with
  | EmptyString => true
  | String c rest => is_token_char c && all_token_chars rest
  end.

Definition legal_name (s : string) : bool :=
  truthy_str s && all_token_chars s.

(** The list after a successful [set]: the first header of that name
    takes the value and the others are removed; without one, the header is
    appended. *)
Fixpoint replace_value (h : t) (name value : string) : t :=
  match h with
  | [] => [(name, value)]
  | (n, v) :: rest =>
      if same_name n name then (n, value) :: delete rest name
      else (n, v) :: replace_value rest name value
  end.

(** The values [set] and [append] accept. *)
Definition accepts (value : string) : bool :=
  byte_string value && legal_value (normalize value).

(** [set]: the value is converted and normalised, the pair is checked,
    and the list is updated; a refused pair throws and leaves the list as
    it was. *)
Definition set (h : t) (name value : string) : JsResult t :=
  if legal_name name && accepts value
  then Returns (replace_value h name (normalize value))
  else Throws (TypeError "Invalid header name or value").


Definition values (h : t) (name : string) : list string :=
  map snd (filter (fun p => same_name (fst p) name) h).


(** [new Headers(init)] appends the pairs of [init] one by one. *)
Definition new (init : list (string * string)) : t :=
  fold_left (fun h p => append h (fst p) (snd p)) init [].

End Headers.

(** ** The gateway: [useApi] and [apiFetch] *)

Definition WP_API_URL : string := "http://localhost:10003".

(** The fields of [RequestInit] the gateway looks at.  [headers] is the
    caller's header record as a list of pairs, empty when absent. *)
Record RequestInit : Type := {
  method : option string;
  headers : list (string * string);
  body : option string
}.

(** The arguments [fetch] is called with: [{...options, headers}]. *)
Record Request : Type := {
  req_url : string;
  req_method : option string;
  req_body : option string;
  req_headers : Headers.t
}.

Definition write_methods : list string := ["POST"; "PUT"; "PATCH"; "DELETE"].

Definition includes (l : list string) (s : string) : bool :=
  existsb (fun x => x =? s) l.

(** The part of [apiFetch] before [await fetch]: the request it sends,
    given the [token] its closure was created with.  It runs outside the
    [try]: when [headers.set] throws, the call is rejected with that error
    and no request is sent. *)
Definition apiFetch_request (token : option string) (endpoint : string)
  (options : RequestInit) : JsResult Request :=
  let url := WP_API_URL ++ "/wp-json/nexus/v1/" ++ endpoint in
  let h0 := Headers.new (headers options) in
  h1 <- match token with
        | Some tok =>
            if truthy_str tok
            then Headers.set h0 "Authorization" ("Bearer " ++ tok)
            else Returns h0
        | None => Returns h0
        end ;;
  h2 <- match method options with
        | Some m =>
            if truthy_str m && includes write_methods (toUpperCase m) then
              if negb (Headers.has h1 "Content-Type")
                 && negb (Headers.has h1 "content-type")
              then Headers.set h1 "Content-Type" "application/json"
              else Returns h1
            else Returns h1
        | None => Returns h1
        end ;;
  Returns {| req_url := url;
             req_method := method options;
             req_body := body options;
             req_headers := h2 |}.

(** ** Responses of the server *)

(** A response body, by what [JSON.parse] makes of its text: a value, or a
    [SyntaxError] for a text that is not JSON. *)
Inductive Body : Type :=
| JsonBody (v : JsVal)
| TextBody (text : string).

Record Response : Type := {
  status : N;
  statusText : string;
  resp_body : Body
}.

(** [response.ok]: the status is in the range 200-299. *)
Definition ok (r : Response) : bool :=
  ((200 <=? status r) && (status r <=? 299))%N.

(** [response.json()], and [JSON.parse(await response.text())]. *)
Definition response_json (r : Response) : JsResult JsVal :=
  match resp_body r with
  | JsonBody v => Returns v
  | TextBody _ => Throws (SyntaxError "Unexpected token in JSON")
  end.

(** How an awaited [fetch] ends: with a response (of any status), or with
    a rejection when the request never completed. *)
Inductive FetchOutcome : Type :=
| Responds (r : Response)
| Rejects (e : Exn).

(** Decimal rendering of a status inside a template literal. *)
Definition show_status (n : N) : string :=
  NilZero.string_of_uint (N.to_uint n).

(** ** The provider's state *)

Record User : Type := {
  id : JsVal;
  name : JsVal
}.

(** The four [useState] cells; with [login] and [logout] they form the
    context value. *)
Record AuthContextType : Type := {
  token : option string;
  user : option User;
  loadingUser : bool;
  loginError : option string
}.

(** [localStorage], restricted to the key ['wp_jwt_token'].  While
    [faulty] holds, writes throw (quota exceeded, storage disabled). *)
Record Storage : Type := {
  wp_jwt_token : option string;
  faulty : bool
}.

Definition getItem (s : Storage) : option string := wp_jwt_token s.

Definition setItem (s : Storage) (value : string) : JsResult Storage :=
  if faulty s then Throws (JsError (JStr "QuotaExceededError"))
  else Returns {| wp_jwt_token := Some value; faulty := faulty s |}.

Definition removeItem (s : Storage) : JsResult Storage :=
  if faulty s then Throws (JsError (JStr "SecurityError"))
  else Returns {| wp_jwt_token := None; faulty := faulty s |}.

(** The provider together with its surroundings: the state cells, the
    browser storage, and the [fetchUser] calls that are awaiting their
    response, oldest first, each with the token it was called with. *)
Record World : Type := {
  auth : AuthContextType;
  localStorage : Storage;
  inflight : list string
}.

Definition setToken (v : option string) (w : World) : World :=
  {| auth := {| token := v; user := user (auth w);
                loadingUser := loadingUser (auth w);
                loginError := loginError (auth w) |};
     localStorage := localStorage w; inflight := inflight w |}.

Definition setUser (v : option User) (w : World) : World :=
  {| auth := {| token := token (auth w); user := v;
                loadingUser := loadingUser (auth w);
                loginError := loginError (auth w) |};
     localStorage := localStorage w; inflight := inflight w |}.

Definition setLoadingUser (v : bool) (w : World) : World :=
  {| auth := {| token := token (auth w); user := user (auth w);
                loadingUser := v;
                loginError := loginError (auth w) |};
     localStorage := localStorage w; inflight := inflight w |}.

Definition setLoginError (v : option string) (w : World) : World :=
  {| auth := {| token := token (auth w); user := user (auth w);
                loadingUser := loadingUser (auth w);
                loginError := v |};
     localStorage := localStorage w; inflight := inflight w |}.

Definition with_storage (s : Storage) (w : World) : World :=
  {| auth := auth w; localStorage := s; inflight := inflight w |}.

Definition with_inflight (l : list string) (w : World) : World :=
  {| auth := auth w; localStorage := localStorage w; inflight := l |}.

(** [try { body } catch (e) { handler(e) }] where the handler ends
    normally. *)
Definition catch_with {A} (body : JsResult A) (handler : Exn -> A) : A :=
  match body with
  | Returns a => a
  | Throws e => handler e
  end.

(** ** The provider's operations *)

Definition login (newToken : string) (w : World) : World :=
  catch_with
    (s <- setItem (localStorage w) newToken ;;
     Returns (setLoginError None (setToken (Some newToken) (with_storage s w))))
    (fun _ => setLoginError (Some "Unable to store authentication data.") w).

Definition logout (w : World) : World :=
  let s := catch_with (removeItem (localStorage w))
                      (fun _ => localStorage w) in
  setUser None (setToken None (with_storage s w)).

(** [fetchUser(currentToken)] up to [await fetch]: the loading flag is
    raised and the request leaves with [Bearer currentToken]. *)
Definition fetchUser_begin (currentToken : string) (w : World) : World :=
  with_inflight (inflight w ++ [currentToken])%list (setLoadingUser true w).

(** [fetchUser] from the response on: the mapped user, or [null]. *)
Definition fetchUser_settle (outcome : FetchOutcome) : option User :=
  catch_with
    (match outcome with
     | Rejects e => Throws e
     | Responds response =>
         if negb (ok response) then Returns None
         else
           userData <- response_json response ;;
           uid <- get_prop userData "id" ;;
           nm <- get_prop userData "name" ;;
           nm' <- (if truthy nm then Returns nm
                   else get_prop userData "slug") ;;
           Returns (Some {| id := uid; name := nm' |})
     end)
    (fun _ => None).

(** [initializeAuth] up to [await fetchUser(token)], or to its end when
    there is no token. *)
Definition initializeAuth_begin (w : World) : World :=
  match token (auth w) with
  | Some t =>
      if truthy_str t then fetchUser_begin t w
      else setLoadingUser false (setUser None w)
  | None => setLoadingUser false (setUser None w)
  end.

(** [initializeAuth] after [await fetchUser(token)]. *)
Definition initializeAuth_resume (fetchedUser : option User) (w : World)
  : World :=
  let w1 :=
    match fetchedUser with
    | Some u => setLoginError None (setUser (Some u) w)
    | None =>
        setLoginError (Some "Session expired. Please log in again.") (logout w)
    end in
  setLoadingUser false w1.

Definition token_eqb (a b : option string) : bool :=
  match a, b with
  | Some x, Some y => x =? y
  | None, None => true
  | _, _ => false
  end.

(** The render that follows a handler: the effect runs again when the
    token it depends on has changed. *)
Definition commit (before after : World) : World :=
  if token_eqb (token (auth before)) (token (auth after)) then after
  else initializeAuth_begin after.

(** First render and first run of the effect. *)
Definition AuthProvider_init (s : Storage) : World :=
  {| auth := {| token := getItem s; user := None;
                loadingUser := true; loginError := None |};
     localStorage := s; inflight := [] |}.

Definition mount (s : Storage) : World :=
  initializeAuth_begin (AuthProvider_init s).

(** What can happen to a mounted provider. *)
Inductive Event : Type :=
| CallLogin (newToken : string)
| CallLogout
| UserFetched (i : nat) (outcome : FetchOutcome)
| StorageFault (b : bool).

Fixpoint remove_nth {A} (i : nat) (l : list A) : list A :=
  match l, i with
  | [], _ => []
  | _ :: rest, O => rest
  | x :: rest, S j => x :: remove_nth j rest
  end.

Definition step (w : World) (e : Event) : World :=
  match e with
  | CallLogin newToken => commit w (login newToken w)
  | CallLogout => commit w (logout w)
  | UserFetched i outcome =>
      match nth_error (inflight w) i with
      | Some _ =>
          commit w (initializeAuth_resume (fetchUser_settle outcome)
                      (with_inflight (remove_nth i (inflight w)) w))
      | None => w
      end
  | StorageFault b =>
      with_storage {| wp_jwt_token := wp_jwt_token (localStorage w);
                      faulty := b |} w
  end.

Definition run (w : World) (events : list Event) : World :=
  fold_left step events w.

(** [apiFetch] from the awaited [fetch] on: the state it leaves and how
    its promise settles.  The outer [catch] rethrows what it caught. *)
Definition apiFetch_settle (outcome : FetchOutcome) (w : World)
  : World * JsResult JsVal :=
  match outcome with
  | Rejects e => (w, try_catch (Throws e) (fun error => Throws error))
  | Responds response =>
      if ((status response =? 401) || (status response =? 403))%N then
        (step w CallLogout,
         try_catch
           (Throws (JsError (JStr ("Authentication failed ("
                                   ++ show_status (status response) ++ ")."))))
           (fun error => Throws error))
      else if negb (ok response) then
        (w,
         try_catch
           (try_catch
              (errorData <- response_json response ;;
               message <- get_prop errorData "message" ;;
               Throws (JsError (js_or message
                                  (JStr (str_or (statusText response)
                                                "API request failed")))))
              (fun jsonError =>
                 Throws (JsError (JStr (str_or (statusText response)
                            "API request failed (Non-JSON error)")))))
           (fun error => Throws error))
      else
        (w, try_catch (response_json response) (fun error => Throws error))
  end.

(** ** [useAuth] *)

(** [useContext(AuthContext)]: the value of the nearest enclosing provider,
    innermost first, or the default [null] without one. *)
Definition useContext (providers : list AuthContextType)
  : option AuthContextType :=
  hd_error providers.

Definition useAuth (providers : list AuthContextType)
  : JsResult AuthContextType :=
  match useContext providers with
  | None => Throws (JsError (JStr "useAuth must be used within an AuthProvider"))
  | Some context => Returns context
  end.

(** ** Reading the session off the provider

    The provider keeps no status field.  Its consumers ([PrivateRoute],
    [LoginPage]) read the session as: still being determined while
    [loadingUser] holds, signed in when it does not and [user] is set,
    signed out otherwise.  [spec_status] names these readings after the
    five states of the design; [Invalid] is never read. *)
Inductive Status : Type :=
| Initializing
| Unauthenticated
| Resolving
| Authenticated
| Invalid.

Definition spec_status (c : AuthContextType) : Status :=
  if loadingUser c then
    if truthy_token (token c) then Resolving else Initializing
  else
    match user c with
    | Some _ => Authenticated
    | None => Unauthenticated
    end.

(** States a mounted provider can be in. *)
Definition reachable (w : World) : Prop :=
  exists (s : Storage) (events : list Event), w = run (mount s) events.

(** A sequence of events in which [login] and [logout] are only called
    while no [fetchUser] call is awaiting its response. *)
Fixpoint race_free (w : World) (events : list Event) : bool :=
  match events with
  | [] => true
  | e :: rest =>
      match e with
      | CallLogin _ | CallLogout =>
          match inflight w with
          | [] => true
          | _ :: _ => false
          end
      | UserFetched _ _ | StorageFault _ => true
      end && race_free (step w e) rest
  end.

(** A token that is not truthy comes with a lowered loading flag. *)
Definition loading_inv (w : World) : Prop :=
  truthy_token (token (auth w)) = false -> loadingUser (auth w) = false.

(** What holds between the events of a race-free sequence. *)
Definition settled_inv (w : World) : Prop :=
  length (inflight w) <= 1
  /\ (inflight w = [] -> loadingUser (auth w) = false)
  /\ (inflight w <> [] -> truthy_token (token (auth w)) = true)
  /\ (user (auth w) <> None -> truthy_token (token (auth w)) = true).

(** ** Sample data *)

Definition storage_empty : Storage :=
  {| wp_jwt_token := None; faulty := false |}.

Definition storage_faulty : Storage :=
  {| wp_jwt_token := None; faulty := true |}.

Definition storage_with (t : string) : Storage :=
  {| wp_jwt_token := Some t; faulty := false |}.

Definition profile_ada : Response :=
  {| status := 200; statusText := "OK";
     resp_body := JsonBody (JObj [("id", JNum 7); ("name", JStr "Ada")]) |}.

Definition profile_bob : Response :=
  {| status := 200; statusText := "OK";
     resp_body := JsonBody (JObj [("id", JNum 3); ("name", JStr "");
                                  ("slug", JStr "bob")]) |}.

Definition forbidden : Response :=
  {| status := 403; statusText := "Forbidden"; resp_body := TextBody "" |}.

Definition server_error : Response :=
  {| status := 500; statusText := "Internal Server Error";
     resp_body :=
       JsonBody (JObj [("code", JStr "duplicate_company");
                       ("message", JStr "Company name already exists")]) |}.

(** Signed in as Ada with ["tok-1"]. *)
Definition signed_in_ada : World :=
  run (mount storage_empty)
      [CallLogin "tok-1"; UserFetched 0 (Responds profile_ada)].

(** A stored token that the server rejected on start-up. *)
Definition session_expired : World :=
  run (mount (storage_with "tok-1")) [UserFetched 0 (Responds forbidden)].

(** [login("tok-A")] with its resolution still pending. *)
Definition resolving_a : World :=
  run (mount storage_empty) [CallLogin "tok-A"].

(** Sign in, sign out, and a second sign-in that the server rejects,
    each resolution completing before the next call. *)
Definition full_cycle : list Event :=
  [CallLogin "tok-1"; UserFetched 0 (Responds profile_ada);
   CallLogout; CallLogin "tok-2"; UserFetched 0 (Responds forbidden)].

Definition no_options : RequestInit :=
  {| method := None; headers := []; body := None |}.


Definition forged_options : RequestInit :=
  {| method := Some "post";
     headers := [("authorization", "Bearer forged")];
     body := Some "{}" |}.

(** ** Vocabulary for the properties of the gateway and of the provider *)






(** The test [apiFetch] makes on a response before anything else. *)
Definition auth_rejected (outcome : FetchOutcome) : bool :=
  match outcome with
  | Responds r => ((status r =? 401) || (status r =? 403))%N
  | Rejects _ => false
  end.

(** Events during which the storage never starts to fail. *)
Definition healthy (events : list Event) : bool :=
  forallb (fun e => match e with
                    | StorageFault true => false
                    | _ => true
                    end) events.

(** The loading flag is raised only while a [fetchUser] call is awaiting
    its response. *)
Definition pending_inv (w : World) : Prop :=
  loadingUser (auth w) = true -> inflight w <> [].

(** The stored token and the token in memory agree, and the storage
    works. *)
Definition coherent (w : World) : Prop :=
  wp_jwt_token (localStorage w) = token (auth w)
  /\ faulty (localStorage w) = false.

(** A server error over a connection that carries no status text. *)
Definition bare_error : Response :=
  {| status := 502; statusText := "";
     resp_body := JsonBody (JObj [("message", JStr "Upstream is down")]) |}.

(** A successful listing. *)
Definition companies_page : Response :=
  {| status := 200; statusText := "OK";
     resp_body :=
       JsonBody (JArr [JObj [("ID", JNum 1); ("name", JStr "Acme")]]) |}.

(** A token with a space at its end, and one with a line feed inside. *)
Definition padded_token : string := "tok-1 ".

(** A token that ends in U+017F, two bytes in UTF-8. *)
Definition wide_token : string :=
  "tok-" ++ String (ascii_of_N 197) (String (ascii_of_N 191) "").

Definition broken_token : string :=
  "tok" ++ String "010"%char EmptyString ++ "1".

Definition typed_options : RequestInit :=
  {| method := Some "Put";
     headers := [("content-type", "text/csv"); ("X-Trace", "abc")];
     body := Some "a,b" |}.

(** ** The earlier revision of the provider

    The first [AuthProvider] of the source file: no [loginError] cell, no
    [try]/[catch] around the storage accesses, the initial token read as
    [getItem(...) || null], and the resolution consumed in a [.then]
    callback.  Its [fetchUser] maps the response as the later one does.
    A throw leaves a handler at once; what it had not yet done stays
    undone. *)
Module Rev1.

Definition initial_token (s : Storage) : option string :=
  match getItem s with
  | Some t => if truthy_str t then Some t else None
  | None => None
  end.

Definition login (newToken : string) (w : World) : JsResult World :=
  s <- setItem (localStorage w) newToken ;;
  Returns (setToken (Some newToken) (with_storage s w)).

Definition logout (w : World) : JsResult World :=
  s <- removeItem (localStorage w) ;;
  Returns (setUser None (setToken None (with_storage s w))).

(** The effect up to the pending [fetchUser(token)], or to its end. *)
Definition effect_begin (w : World) : World :=
  match token (auth w) with
  | Some t =>
      if truthy_str t then fetchUser_begin t w
      else setLoadingUser false (setUser None w)
  | None => setLoadingUser false (setUser None w)
  end.

(** The [.then] callback of the effect. *)
Definition effect_then (fetchedUser : option User) (w : World)
  : JsResult World :=
  w1 <- match fetchedUser with
        | Some u => Returns (setUser (Some u) w)
        | None => logout w
        end ;;
  Returns (setLoadingUser false w1).

Definition commit (before after : World) : World :=
  if token_eqb (token (auth before)) (token (auth after)) then after
  else effect_begin after.

Definition AuthProvider_init (s : Storage) : World :=
  {| auth := {| token := initial_token s; user := None;
                loadingUser := true; loginError := None |};
     localStorage := s; inflight := [] |}.

Definition mount (s : Storage) : World :=
  effect_begin (AuthProvider_init s).

(** One event: the state it leaves, and what it threw, to the caller of
    [login] or [logout] or out of the [.then] callback. *)
Definition step (w : World) (e : Event) : World * option Exn :=
  match e with
  | CallLogin newToken =>
      match login newToken w with
      | Returns w' => (commit w w', None)
      | Throws x => (w, Some x)
      end
  | CallLogout =>
      match logout w with
      | Returns w' => (commit w w', None)
      | Throws x => (w, Some x)
      end
  | UserFetched i outcome =>
      match nth_error (inflight w) i with
      | Some _ =>
          let w0 := with_inflight (remove_nth i (inflight w)) w in
          match effect_then (fetchUser_settle outcome) w0 with
          | Returns w' => (commit w w', None)
          | Throws x => (w0, Some x)
          end
      | None => (w, None)
      end
  | StorageFault b =>
      (with_storage {| wp_jwt_token := wp_jwt_token (localStorage w);
                       faulty := b |} w, None)
  end.

(** A sequence of events: the final state and everything thrown, latest
    first. *)
Fixpoint run (w : World) (thrown : list Exn) (events : list Event)
  : World * list Exn :=
  match events with
  | [] => (w, thrown)
  | e :: rest =>
      match step w e with
      | (w', Some x) => run w' (x :: thrown) rest
      | (w', None) => run w' thrown rest
      end
  end.

End Rev1.

(** The later revision's state with its [loginError] cell blanked. *)
Definition without_error (w : World) : World := setLoginError None w.

(** ** Routing: [App], [PrivateRoute], [LoginPage]

    The three routes of [App] and what each component hands to React: an
    element to show, and for [LoginPage] the navigation its effect
    performs.  Matching a URL to a route is the router's business and is
    not modelled. *)
Inductive Route : Type :=
| RootRoute
| LoginRoute
| DashboardRoute.

Inductive Element : Type :=
| LoadingApplication
| LoadingApplicationState
| CheckingAuthentication
| Navigate (to : Route)
| Null
| LoginFormElement
| DashboardPageElement.

(** What [AuthProvider] renders around its children. *)
Definition AuthProvider_render (context : AuthContextType)
  (children : Element) : Element :=
  if loadingUser context then LoadingApplication else children.

Definition PrivateRoute (context : AuthContextType) (children : Element)
  : Element :=
  if loadingUser context then LoadingApplicationState
  else
    match user context with
    | None => Navigate LoginRoute
    | Some _ => children
    end.

(** The render of [LoginForm]. *)
Definition LoginForm_render (context : AuthContextType) : Element :=
  match user context with
  | Some _ => Null
  | None => if loadingUser context then Null else LoginFormElement
  end.

(** The render of [LoginPage], and the navigation of its effect. *)
Definition LoginPage (context : AuthContextType) : Element :=
  if loadingUser context then CheckingAuthentication
  else
    match user context with
    | Some _ => Null
    | None => LoginForm_render context
    end.

Definition LoginPage_effect (context : AuthContextType) : option Route :=
  if negb (loadingUser context) then
    match user context with
    | Some _ => Some DashboardRoute
    | None => None
    end
  else None.

(** The element of a route in [App]. *)
Definition Routes (context : AuthContextType) (r : Route) : Element :=
  match r with
  | LoginRoute => LoginPage context
  | DashboardRoute => PrivateRoute context DashboardPageElement
  | RootRoute => Navigate LoginRoute
  end.

(** What is on screen at a route, and where the rendered tree navigates
    from there, if anywhere.  While the provider shows its loading element
    the routes are not rendered and nothing navigates. *)
Definition screen (context : AuthContextType) (r : Route) : Element :=
  AuthProvider_render context (Routes context r).

Definition navigation (context : AuthContextType) (r : Route)
  : option Route :=
  match screen context r with
  | LoadingApplication => None
  | Navigate to => Some to
  | _ =>
      match r with
      | LoginRoute => LoginPage_effect context
      | _ => None
      end
  end.

Fixpoint follow (fuel : nat) (context : AuthContextType) (r : Route)
  : Route :=
  match fuel with
  | O => r
  | S n =>
      match navigation context r with
      | Some r' => follow n context r'
      | None => r
      end
  end.

(** ** Strings out of values and errors *)

(** [String(v)], as used by template literals and by [new Error(v)], on
    values whose numbers are below 2^53: those are the naturals a JSON
    text yields exactly, and they print in plain decimal.  A property that
    reads the text of a number carries [safe_numbers] as a hypothesis. *)
Fixpoint to_string (v : JsVal) : string :=
  match v with
  | JUndefined => "undefined"
  | JNull => "null"
  | JBool true => "true"
  | JBool false => "false"
  | JNum n => show_status n
  | JStr s => s
  | JArr items =>
      String.concat ","
        (map (fun x => match x with
                       | JUndefined | JNull => ""
                       | _ => to_string x
                       end) items)
  | JObj _ => "[object Object]"
  end.


(** [err.message] *)
Definition message_of (err : Exn) : string :=
  match err with
  | JsError JUndefined => ""
  | JsError arg => to_string arg
  | TypeError msg => msg
  | SyntaxError msg => msg
  end.

(** The response an awaited [fetch] hands over, or its rejection. *)
Definition awaited (outcome : FetchOutcome) : JsResult Response :=
  match outcome with
  | Responds r => Returns r
  | Rejects e => Throws e
  end.

(** ** [LoginForm]

    The form's four state cells and its [handleSubmit], cut at the
    awaited [fetch].  The request body is given by the value handed to
    [JSON.stringify].  [handleSubmit] calls the provider's [login] with
    whatever the response holds under [token]; that call is reported, not
    performed, and (as in the later provider) it does not throw. *)
Module LoginForm.

Record State : Type := {
  username : string;
  password : string;
  error : option string;
  loading : bool
}.

Definition initial : State :=
  {| username := ""; password := ""; error := None; loading := false |}.

Definition WP_API_URL : string := "YOUR_WORDPRESS_SITE_URL".

Record LoginRequest : Type := {
  loginUrl : string;
  login_method : string;
  login_headers : list (string * string);
  login_body : JsVal
}.

(** [handleSubmit] up to [await fetch]. *)
Definition handleSubmit_begin (st : State) : State * LoginRequest :=
  ({| username := username st; password := password st;
      error := None; loading := true |},
   {| loginUrl := WP_API_URL ++ "/wp-json/jwt-auth/v1/token";
      login_method := "POST";
      login_headers := [("Content-Type", "application/json")];
      login_body := JObj [("username", JStr (username st));
                          ("password", JStr (password st))] |}).

(** The [try] block after the [fetch]: the token handed to [login], or
    what was thrown. *)
Definition attempt (outcome : FetchOutcome) : JsResult JsVal :=
  response <- awaited outcome ;;
  if negb (ok response) then
    errorData <- response_json response ;;
    message <- get_prop errorData "message" ;;
    Throws (JsError (js_or message
                       (JStr "Login failed. Please check your credentials.")))
  else
    data <- response_json response ;;
    get_prop data "token".

(** [handleSubmit] from the response on: the form's state, and the
    argument of the [login] call when it was made. *)
Definition handleSubmit_settle (outcome : FetchOutcome) (st : State)
  : State * option JsVal :=
  match attempt outcome with
  | Returns receivedToken =>
      ({| username := ""; password := ""; error := error st;
          loading := false |},
       Some receivedToken)
  | Throws err =>
      ({| username := username st; password := password st;
          error := Some (str_or (message_of err)
                                "An unexpected error occurred.");
          loading := false |},
       None)
  end.

End LoginForm.

(** The provider after the [login] call the form reported.  The provider
    is modelled for tokens that are strings; for any other argument there
    is no result. *)
Definition login_call (call : option JsVal) (w : World) : option World :=
  match call with
  | None => Some w
  | Some (JStr t) => Some (step w (CallLogin t))
  | Some _ => None
  end.

Definition bad_credentials : Response :=
  {| status := 403; statusText := "Forbidden";
     resp_body :=
       JsonBody (JObj [("code", JStr "incorrect_password");
                       ("message", JStr "The password is incorrect.")]) |}.

Definition token_issued : Response :=
  {| status := 200; statusText := "OK";
     resp_body := JsonBody (JObj [("token", JStr "tok-1");
                                  ("user_email", JStr "ada@example.org")]) |}.

Definition typed_credentials : LoginForm.State :=
  {| LoginForm.username := "ada"; LoginForm.password := "s3cret";
     LoginForm.error := None; LoginForm.loading := true |}.

(** ** [NexusInputBar]

    [trim] on ASCII text: the white space removed is tab, line feed,
    vertical tab, form feed, carriage return and space.  The white space
    outside ASCII that [trim] also removes does not occur in ASCII text;
    the properties of the input bar are stated for such text. *)
Module NexusInputBar.

Definition is_space (c : ascii) : bool :=
  let n := N_of_ascii c in
  ((n =? 32) || ((9 <=? n) && (n <=? 13)))%N.

Fixpoint trimStart (s : string) : string :=
  match s with
  | EmptyString => EmptyString
  | String c rest => if is_space c then trimStart rest else s
  end.

Fixpoint trimEnd (s : string) : string :=
  match s with
  | EmptyString => EmptyString
  | String c rest =>
      match trimEnd rest with
      | EmptyString => if is_space c then EmptyString
                       else String c EmptyString
      | kept => String c kept
      end
  end.

Definition trim (s : string) : string := trimEnd (trimStart s).

(** [handleSubmit]: the text [onQuerySubmit] is called with, if it is
    called.  [DashboardLayout] always passes the callback. *)
Definition handleSubmit (query : string) : option string :=
  let trimmedQuery := trim query in
  if truthy_str trimmedQuery then Some trimmedQuery else None.

End NexusInputBar.

Fixpoint all_space (s : string) : bool :=
  match s with
  | EmptyString => true
  | String c rest => NexusInputBar.is_space c && all_space rest
  end.

Definition starts_with_space (s : string) : bool :=
  match s with
  | EmptyString => false
  | String c _ => NexusInputBar.is_space c
  end.

Fixpoint ends_with_space (s : string) : bool :=
  match s with
  | EmptyString => false
  | String c EmptyString => NexusInputBar.is_space c
  | String _ rest => ends_with_space rest
  end.

Fixpoint ascii_text (s : string) : bool :=
  match s with
  | EmptyString => true
  | String c rest => (N_of_ascii c <? 128)%N && ascii_text rest
  end.

(** ** [DashboardPage]

    The page's four state cells, its handlers, and what its render makes
    of them.  [handleQuerySubmit] is cut at the awaited [apiFetch]. *)
Module Dashboard.

Inductive DashboardView : Type :=
| overview
| companies_list
| add_company
| query_result
| message.

Record State : Type := {
  currentView : DashboardView;
  refreshData : nat;
  queryResult : JsVal;
  queryLoading : bool
}.

Definition initial : State :=
  {| currentView := overview; refreshData := 0; queryResult := JNull;
     queryLoading := false |}.

Definition primaryActions : list string :=
  ["Add New Company"; "View All Companies"; "Add New Project";
   "View All Projects"; "Add New Client"; "View All Clients";
   "Add Time Entry"; "View All Time Entries"; "Add Expense";
   "View All Expenses"].

Definition quote : string := String "034"%char EmptyString.

Definition handleActionClick (actionName : string) (st : State) : State :=
  if actionName =? "View All Companies" then
    {| currentView := companies_list; refreshData := refreshData st + 1;
       queryResult := JNull; queryLoading := queryLoading st |}
  else if actionName =? "Add New Company" then
    {| currentView := add_company; refreshData := refreshData st;
       queryResult := JNull; queryLoading := queryLoading st |}
  else
    {| currentView := message; refreshData := refreshData st;
       queryResult :=
         JObj [("message",
                JStr ("Action " ++ quote ++ actionName ++ quote
                      ++ " is not yet implemented."))];
       queryLoading := queryLoading st |}.

Definition handleDataChange (st : State) : State :=
  {| currentView := companies_list; refreshData := refreshData st + 1;
     queryResult := JNull; queryLoading := queryLoading st |}.

Definition handleCancel (st : State) : State :=
  {| currentView := overview; refreshData := refreshData st;
     queryResult := JNull; queryLoading := queryLoading st |}.

(** The [onClick] of the three "Back to Overview" buttons. *)
Definition backToOverview (st : State) : State :=
  {| currentView := overview; refreshData := refreshData st;
     queryResult := queryResult st; queryLoading := queryLoading st |}.

(** [handleQuerySubmit] up to [await apiFetch('query', ...)]. *)
Definition handleQuerySubmit_begin (st : State) : State :=
  {| currentView := query_result; refreshData := refreshData st;
     queryResult := JNull; queryLoading := true |}.

(** The arguments of that [apiFetch] call, the body as the value handed
    to [JSON.stringify]. *)
Definition query_call (query : string) : string * string * JsVal :=
  ("query", "POST", JObj [("query", JStr query)]).

(** [handleQuerySubmit] once [apiFetch] has settled. *)
Definition handleQuerySubmit_settle (result : JsResult JsVal) (st : State)
  : State :=
  {| currentView := currentView st; refreshData := refreshData st;
     queryResult :=
       match result with
       | Returns v => v
       | Throws err =>
           JObj [("error",
                  JStr (str_or (message_of err) "Failed to process query."))]
       end;
     queryLoading := false |}.

(** What the [query_result] view shows under its heading. *)
Inductive QueryPane : Type :=
| Processing
| ResultShown (v : JsVal)
| NoResultYet.

Definition query_pane (st : State) : QueryPane :=
  if queryLoading st then Processing
  else if truthy (queryResult st) then ResultShown (queryResult st)
  else NoResultYet.

(** What the [message] view puts under its heading: the value of
    [queryResult && queryResult.message && <p>...</p>], which is the
    paragraph, or the falsy operand that is handed to React instead. *)
Inductive MessageBody : Type :=
| Handed (v : JsVal)
| Paragraph (text : JsVal).

Definition message_body (st : State) : MessageBody :=
  match queryResult st with
  | JObj fields =>
      if truthy (assoc "message" fields)
      then Paragraph (assoc "message" fields)
      else Handed (assoc "message" fields)
  | v => if truthy v then Handed JUndefined else Handed v
  end.

(** [renderMainContent]: what the main area holds in each view.  The
    query view holds the pane and, when no query is processing, a "Back
    to Overview" button. *)
Inductive MainContent : Type :=
| OverviewContent (welcome : option JsVal)
| CompanyTableContent (refreshTrigger : nat)
| CompanyFormContent
| QueryResultContent (pane : QueryPane) (backButton : bool)
| MessageContent (body : MessageBody).

Definition renderMainContent (user : option User) (st : State)
  : MainContent :=
  match currentView st with
  | overview =>
      OverviewContent (match user with
                       | Some u => Some (name u)
                       | None => None
                       end)
  | companies_list => CompanyTableContent (refreshData st)
  | add_company => CompanyFormContent
  | query_result =>
      QueryResultContent (query_pane st) (negb (queryLoading st))
  | message => MessageContent (message_body st)
  end.

(** Which controls the render puts on the page: the action grid, a
    "Back to Overview" button, and whether the input bar is enabled
    ([disabled={loading}] on its input and its button). *)
Definition action_grid_shown (st : State) : bool :=
  match currentView st with
  | overview => true
  | _ => false
  end.

Definition back_button_shown (st : State) : bool :=
  match currentView st with
  | query_result => negb (queryLoading st)
  | message => true
  | _ => false
  end.

Definition input_bar_enabled (st : State) : bool :=
  negb (queryLoading st).

Definition cancel_button_shown (st : State) : bool :=
  match currentView st with
  | add_company => true
  | _ => false
  end.

(** The page with the queries that are awaiting their answer, oldest
    first. *)
Record Page : Type := {
  page_state : State;
  pending : list string
}.

(** What can happen on the page.  A control that is not rendered or is
    disabled cannot be used; the callback of a company form can arrive
    whenever a submission of such a form is still under way, also after
    the form has left the screen. *)
Inductive Event : Type :=
| ClickAction (actionName : string)
| ClickBack
| CompanyCreated
| ClickCancel
| SubmitQuery (typed : string)
| QuerySettled (i : nat) (result : JsResult JsVal).

Definition step (p : Page) (e : Event) : Page :=
  let st := page_state p in
  match e with
  | ClickAction actionName =>
      if action_grid_shown st
      then {| page_state := handleActionClick actionName st;
              pending := pending p |}
      else p
  | ClickBack =>
      if back_button_shown st
      then {| page_state := backToOverview st; pending := pending p |}
      else p
  | CompanyCreated =>
      {| page_state := handleDataChange st; pending := pending p |}
  | ClickCancel =>
      if cancel_button_shown st
      then {| page_state := handleCancel st; pending := pending p |}
      else p
  | SubmitQuery typed =>
      if input_bar_enabled st then
        match NexusInputBar.handleSubmit typed with
        | Some query =>
            {| page_state := handleQuerySubmit_begin st;
               pending := (pending p ++ [query])%list |}
        | None => p
        end
      else p
  | QuerySettled i result =>
      match nth_error (pending p) i with
      | Some _ =>
          {| page_state := handleQuerySubmit_settle result st;
             pending := remove_nth i (pending p) |}
      | None => p
      end
  end.

Definition run (p : Page) (events : list Event) : Page :=
  fold_left step events p.

Definition mounted : Page := {| page_state := initial; pending := [] |}.

(** At most one query is under way, and the loading flag tells when. *)
Definition one_query (p : Page) : Prop :=
  match pending p with
  | [] => queryLoading (page_state p) = false
  | [_] => queryLoading (page_state p) = true
  | _ => False
  end.

End Dashboard.

Definition busy_afternoon : list Dashboard.Event :=
  [Dashboard.SubmitQuery "  unpaid invoices ";
   Dashboard.SubmitQuery "second try";
   Dashboard.CompanyCreated;
   Dashboard.QuerySettled 0 (Returns (JArr []));
   Dashboard.ClickBack;
   Dashboard.ClickAction "Add Expense"].

(** ** [CompanyTable]

    The table's three state cells, [fetchCompanies] cut at the awaited
    [apiFetch('companies')], and the render.  A cell holds what is handed
    to React; a date cell holds the value given to [new Date]. *)
Module CompanyTable.

Record State : Type := {
  companies : JsVal;
  loading : bool;
  error : option string
}.

Definition initial : State :=
  {| companies := JArr []; loading := true; error := None |}.



Inductive Cell : Type :=
| Value (v : JsVal)
| Literal (text : string)
| LocalDate (v : JsVal).

Record Row : Type := {
  key : JsVal;
  cells : list Cell
}.

(** [v || '-'] *)
Definition or_dash (v : JsVal) : Cell :=
  if truthy v then Value v else Literal "-".

Definition status_text (v : JsVal) : string :=
  match v with
  | JNum 1 => "Active"
  | _ => "Inactive"
  end.

(** One [<tr>] of the table body. *)
Definition row (company : JsVal) : JsResult Row :=
  ID <- get_prop company "ID" ;;
  name <- get_prop company "name" ;;
  contact_person <- get_prop company "contact_person" ;;
  email <- get_prop company "email" ;;
  city <- get_prop company "city" ;;
  status <- get_prop company "status" ;;
  created_at <- get_prop company "created_at" ;;
  Returns {| key := ID;
             cells := [Value ID; Value name; or_dash contact_person;
                       or_dash email; or_dash city;
                       Literal (status_text status);
                       if truthy created_at then LocalDate created_at
                       else Literal "-"] |}.

(** [companies.map(...)] on an array: the rows in order, or the first
    throw. *)
Fixpoint rows (items : list JsVal) : JsResult (list Row) :=
  match items with
  | [] => Returns []
  | company :: rest =>
      r <- row company ;;
      rs <- rows rest ;;
      Returns (r :: rs)
  end.

Inductive View : Type :=
| LoadingCompanies
| ErrorShown (text : string)
| NoCompanies
| Table (body : list Row).

Definition not_a_function : Exn := TypeError "companies.map is not a function".

(** The render once loading is over and no error is set.  [companies]
    is whatever the gateway resolved with: [.length] and [.map] are looked
    up on it as JavaScript does. *)
Definition render_loaded (companies : JsVal) : JsResult View :=
  match companies with
  | JUndefined | JNull => Throws (TypeError "Cannot read properties")
  | JArr [] => Returns NoCompanies
  | JArr items => body <- rows items ;; Returns (Table body)
  | JStr s => if s =? "" then Returns NoCompanies else Throws not_a_function
  | JObj fields =>
      match assoc "length" fields with
      | JNum 0 => Returns NoCompanies
      | _ => Throws not_a_function
      end
  | JBool _ | JNum _ => Throws not_a_function
  end.

Definition render (st : State) : JsResult View :=
  if loading st then Returns LoadingCompanies
  else
    match error st with
    | Some text =>
        if truthy_str text then Returns (ErrorShown text)
        else render_loaded (companies st)
    | None => render_loaded (companies st)
    end.

(** React shows texts and numbers, nothing for booleans, [null] and
    [undefined], the entries of an array one after the other, and throws
    on a plain object (the text of that error differs between builds and
    no property depends on it). *)
Fixpoint valid_child (v : JsVal) : bool :=
  match v with
  | JObj _ => false
  | JArr items => forallb valid_child items
  | _ => true
  end.

Definition cell_valid (c : Cell) : bool :=
  match c with
  | Value v => valid_child v
  | Literal _ => true
  | LocalDate _ => true
  end.

Definition React_accepts (v : View) : bool :=
  match v with
  | Table body => forallb (fun r => forallb cell_valid (cells r)) body
  | _ => true
  end.

Definition invalid_child : Exn :=
  JsError (JStr "Objects are not valid as a React child").

(** What reaches the screen: the render, then React's check of what the
    cells hold. *)
Definition shown (st : State) : JsResult View :=
  v <- render st ;;
  if React_accepts v then Returns v else Throws invalid_child.

(** The five fields of a company that the row hands to React as they
    are. *)
Definition fields_valid (company : JsVal) : bool :=
  forallb (fun k => match get_prop company k with
                    | Returns v => valid_child v
                    | Throws _ => true
                    end)
          ["ID"; "name"; "contact_person"; "email"; "city"].

End CompanyTable.

Definition nullish (v : JsVal) : bool :=
  match v with
  | JUndefined | JNull => true
  | _ => false
  end.

Definition loaded (items : list JsVal) : CompanyTable.State :=
  {| CompanyTable.companies := JArr items;
     CompanyTable.loading := false; CompanyTable.error := None |}.

(** ** [CompanyForm]

    The form's data as the object it is, keys in order; [handleSubmit]
    cut at the awaited [apiFetch('companies', ...)], its body given by the
    value handed to [JSON.stringify]. *)
Module CompanyForm.

Definition blank : list (string * JsVal) :=
  [("name", JStr ""); ("legal_name", JStr "");
   ("document_number", JStr ""); ("email", JStr ""); ("phone", JStr "");
   ("address_1", JStr ""); ("address_2", JStr ""); ("city", JStr "");
   ("state", JStr ""); ("postal_code", JStr ""); ("country", JStr "");
   ("website", JStr ""); ("notes", JStr ""); ("status", JNum 1);
   ("default_flat_fee", JStr "0.00")].

Record State : Type := {
  formData : list (string * JsVal);
  loading : bool;
  error : option string;
  success : option string
}.

Definition initial : State :=
  {| formData := blank; loading := false; error := None; success := None |}.

(** [{...prevState, [name]: v}]: an existing key keeps its place and takes
    the value, a new key goes last. *)
Fixpoint with_field (name : string) (v : JsVal)
  (fields : list (string * JsVal)) : list (string * JsVal) :=
  match fields with
  | [] => [(name, v)]
  | (k, old) :: rest =>
      if k =? name then (k, v) :: rest
      else (k, old) :: with_field name v rest
  end.

(** [handleInputChange] for a target with the given [name], [value] and
    [type]; [String(value)] of a string is the string. *)
Definition handleInputChange (name value type : string) (st : State)
  : State :=
  let finalValue :=
    if (type =? "number") || (name =? "default_flat_fee") then value
    else value in
  {| formData := with_field name (JStr finalValue) (formData st);
     loading := loading st; error := error st; success := success st |}.

(** [handleSubmit] up to the awaited call, and the arguments of the
    call. *)
Definition handleSubmit_begin (st : State)
  : State * (string * string * JsVal) :=
  ({| formData := formData st; loading := true; error := None;
      success := None |},
   ("companies", "POST", JObj (formData st))).

Definition quote : string := String "034"%char EmptyString.

(** [handleSubmit] once the call has settled: the form's state, and
    whether [onCompanyCreated] was called. *)
Definition handleSubmit_settle (result : JsResult JsVal) (st : State)
  : State * bool :=
  match (createdCompany <- result ;; get_prop createdCompany "name") with
  | Returns name =>
      ({| formData := blank; loading := false; error := error st;
          success := Some ("Company " ++ quote ++ to_string name ++ quote
                           ++ " created successfully!") |},
       true)
  | Throws err =>
      ({| formData := formData st; loading := false;
          error := Some (str_or (message_of err)
                                "Failed to create company.");
          success := success st |},
       false)
  end.

End CompanyForm.

Definition nested_name : list JsVal :=
  [JObj [("ID", JNum 1);
         ("name", JObj [("first", JStr "A")]);
         ("status", JNum 1)]].


Definition two_companies : list JsVal :=
  [JObj [("ID", JNum 1); ("name", JStr "Acme"); ("status", JNum 1);
         ("city", JStr "Porto")];
   JObj [("ID", JNum 2); ("name", JStr "Globex"); ("status", JStr "1");
         ("created_at", JStr "2025-01-05")]].

(** * Properties *)

(** ** The model on sample inputs *)

Example apiFetch_request_get :
  apiFetch_request (Some "tok-1") "companies" no_options
  = Returns
      {| req_url := "http://localhost:10003/wp-json/nexus/v1/companies";
         req_method := None; req_body := None;
         req_headers := [("Authorization", "Bearer tok-1")] |}.
Proof. reflexivity. Qed.

Example apiFetch_request_post :
  apiFetch_request (Some "tok-1") "companies" forged_options
  = Returns
      {| req_url := "http://localhost:10003/wp-json/nexus/v1/companies";
         req_method := Some "post"; req_body := Some "{}";
         req_headers := [("authorization", "Bearer tok-1");
                         ("Content-Type", "application/json")] |}.
Proof. reflexivity. Qed.

(** A token that ends in a space goes out without it; a token with a line
    feed inside sends nothing. *)
Example apiFetch_request_padded :
  apiFetch_request (Some padded_token) "companies" no_options
  = Returns
      {| req_url := "http://localhost:10003/wp-json/nexus/v1/companies";
         req_method := None; req_body := None;
         req_headers := [("Authorization", "Bearer tok-1")] |}.
Proof. reflexivity. Qed.

Example apiFetch_request_broken :
  exists msg,
    apiFetch_request (Some broken_token) "companies" no_options
    = Throws (TypeError msg).
Proof. eexists. reflexivity. Qed.

(** So does a token with a character above U+00FF. *)
Example apiFetch_request_wide :
  exists msg,
    apiFetch_request (Some wide_token) "companies" no_options
    = Throws (TypeError msg).
Proof. eexists. reflexivity. Qed.

(** The walk-through of the design: nothing stored, [login("tok-1")], the
    profile of Ada arrives, a call to [companies] goes out with the bearer
    header and comes back 403. *)
Example end_to_end_scenario :
  spec_status (auth (AuthProvider_init storage_empty)) = Initializing
  /\ spec_status (auth (mount storage_empty)) = Unauthenticated
  /\ spec_status (auth (run (mount storage_empty) [CallLogin "tok-1"]))
     = Resolving
  /\ spec_status (auth signed_in_ada) = Authenticated
  /\ user (auth signed_in_ada) = Some {| id := JNum 7; name := JStr "Ada" |}
  /\ apiFetch_request (token (auth signed_in_ada)) "companies" no_options
     = Returns
         {| req_url := "http://localhost:10003/wp-json/nexus/v1/companies";
            req_method := None; req_body := None;
            req_headers := [("Authorization", "Bearer tok-1")] |}
  /\ auth (fst (apiFetch_settle (Responds forbidden) signed_in_ada))
     = {| token := None; user := None; loadingUser := false;
          loginError := None |}.
Proof. repeat split; reflexivity. Qed.


(** ** Header lists *)

Section HeaderFacts.

Import Headers.










Lemma has_values (h : t) (n : string) :
  has h n = match values h n with [] => false | _ => true end.
Proof.
  unfold has, values.
  induction h as [|[k u] h IH]; simpl; [reflexivity|].
  destruct (same_name k n); simpl; [reflexivity|assumption].
Qed.


End HeaderFacts.

(** ** What [headers.set] stores and when it throws *)






Lemma set_content_type (h : Headers.t) :
  Headers.set h "Content-Type" "application/json"
  = Returns (Headers.replace_value h "Content-Type" "application/json").
Proof. reflexivity. Qed.





(** ** The request the gateway sends *)







(** ** How a gateway call settles *)

(** A status outside 200-299 other than 401 and 403 rejects with the
    status text (or the fixed fallback), whatever the body holds: the
    error thrown inside the inner [try] is caught by its own [catch]. *)
Lemma apiFetch_settle_other_error (response : Response) (w : World) :
  ((status response =? 401) || (status response =? 403))%N = false ->
  ok response = false ->
  apiFetch_settle (Responds response) w
  = (w, Throws (JsError (JStr (str_or (statusText response)
                                 "API request failed (Non-JSON error)")))).
Proof.
  intros Hauth Hok. unfold apiFetch_settle. rewrite Hauth, Hok. simpl.
  destruct (response_json response) as [errorData|e]; simpl; [|reflexivity].
  destruct (get_prop errorData "message"); reflexivity.
Qed.

(** C5 at a failing input: a 500 response whose JSON body carries
    [message: "Company name already exists"] rejects with the status text
    ["Internal Server Error"], not with the body's message. *)
Theorem apiFetch_drops_structured_message (w : World) :
  response_json server_error
  = Returns (JObj [("code", JStr "duplicate_company");
                   ("message", JStr "Company name already exists")])
  /\ apiFetch_settle (Responds server_error) w
     = (w, Throws (JsError (JStr "Internal Server Error"))).
Proof. split; reflexivity. Qed.

(** C8: when [fetch] itself rejects, the call rejects with that very
    error and the provider's state, the storage and the pending
    resolutions are as before. *)
Theorem apiFetch_network_failure (e : Exn) (w : World) :
  apiFetch_settle (Rejects e) w = (w, Throws e).
Proof. reflexivity. Qed.

(** ** [useAuth] *)

(** C9: without an enclosing provider (a [null] context value) [useAuth]
    throws; with one it returns that provider's context value. *)
Theorem useAuth_requires_provider (providers : list AuthContextType) :
  (useContext providers = None ->
   useAuth providers
   = Throws (JsError (JStr "useAuth must be used within an AuthProvider")))
  /\ (forall context, useContext providers = Some context ->
                      useAuth providers = Returns context).
Proof.
  unfold useAuth. split.
  - intros ->. reflexivity.
  - intros context ->. reflexivity.
Qed.

Lemma useAuth_requires_provider_witness :
  useAuth []
  = Throws (JsError (JStr "useAuth must be used within an AuthProvider"))
  /\ useAuth [auth signed_in_ada; auth (mount storage_empty)]
     = Returns (auth signed_in_ada).
Proof.
  split.
  - apply (proj1 (useAuth_requires_provider [])). reflexivity.
  - apply (proj2 (useAuth_requires_provider
                    [auth signed_in_ada; auth (mount storage_empty)])).
    reflexivity.
Defined.

(** ** Reachable states *)

Ltac case_if :=
  match goal with
  | |- context [if ?b then _ else _] => destruct b eqn:?
  end.

Lemma loading_inv_mount (s : Storage) : loading_inv (mount s).
Proof.
  destruct s as [[t|] flt];
    unfold loading_inv, mount, initializeAuth_begin; simpl.
  - case_if; simpl; congruence.
  - reflexivity.
Qed.

Lemma loading_inv_step (w : World) (e : Event) :
  loading_inv w -> loading_inv (step w e).
Proof.
  destruct w as [[tk us ld er] [item flt] infl].
  unfold loading_inv. destruct e as [t| |i outcome|b]; simpl.
  - unfold login, commit, initializeAuth_begin. simpl. destruct flt; simpl.
    + destruct tk; simpl; rewrite ?String.eqb_refl; auto.
    + destruct tk as [t0|]; simpl.
      * destruct (t0 =? t) eqn:E; simpl.
        -- apply String.eqb_eq in E. subst. auto.
        -- destruct (truthy_str t) eqn:Ht; simpl; congruence.
      * destruct (truthy_str t) eqn:Ht; simpl; congruence.
  - unfold logout, commit, initializeAuth_begin.
    destruct flt, tk; simpl; auto.
  - destruct (nth_error infl i); simpl; [|auto].
    unfold initializeAuth_resume, commit, initializeAuth_begin, logout.
    destruct (fetchUser_settle outcome); simpl.
    + destruct tk; simpl; rewrite ?String.eqb_refl; simpl; auto.
    + destruct flt, tk; simpl; auto.
  - auto.
Qed.

Lemma loading_inv_run (events : list Event) (w : World) :
  loading_inv w -> loading_inv (run w events).
Proof.
  revert w. induction events as [|e events IH]; intros w Hw; simpl.
  - assumption.
  - apply IH, loading_inv_step, Hw.
Qed.

Lemma reachable_loading_inv (w : World) : reachable w -> loading_inv w.
Proof.
  intros (s & events & ->). apply loading_inv_run, loading_inv_mount.
Qed.

(** What [logout] followed by the render leaves behind. *)
Lemma logout_clears (w : World) :
  token (auth (step w CallLogout)) = None
  /\ user (auth (step w CallLogout)) = None.
Proof.
  destruct w as [[tk us ld er] [item flt] infl].
  unfold step, logout, commit, initializeAuth_begin.
  destruct flt, tk; simpl; split; reflexivity.
Qed.

Lemma logout_keeps_loading_when_signed_out (w : World) :
  token (auth w) = None ->
  loadingUser (auth (step w CallLogout)) = loadingUser (auth w).
Proof.
  destruct w as [[tk us ld er] [item flt] infl]. simpl. intros ->.
  unfold step, logout, commit. destruct flt; reflexivity.
Qed.

Lemma logout_lowers_loading (w : World) :
  loading_inv w -> loadingUser (auth (step w CallLogout)) = false.
Proof.
  intros Hw. destruct (token (auth w)) as [t|] eqn:Ht.
  - destruct w as [[tk us ld er] [item flt] infl]. simpl in Ht. subst tk.
    unfold step, logout, commit, initializeAuth_begin.
    destruct flt; reflexivity.
  - rewrite (logout_keeps_loading_when_signed_out w Ht).
    apply Hw. rewrite Ht. reflexivity.
Qed.

(** C1: a response with status 401 or 403 makes the call run [logout] and
    then reject with the authentication-failure error; afterwards the
    provider holds neither token nor user, whatever it held before, and
    on a mounted provider the session reads as [Unauthenticated]. *)
Theorem apiFetch_auth_failure_logs_out (response : Response) (w : World) :
  status response = 401%N \/ status response = 403%N ->
  fst (apiFetch_settle (Responds response) w) = step w CallLogout
  /\ snd (apiFetch_settle (Responds response) w)
     = Throws (JsError (JStr ("Authentication failed ("
                              ++ show_status (status response) ++ ").")))
  /\ token (auth (fst (apiFetch_settle (Responds response) w))) = None
  /\ user (auth (fst (apiFetch_settle (Responds response) w))) = None
  /\ (reachable w ->
      spec_status (auth (fst (apiFetch_settle (Responds response) w)))
      = Unauthenticated).
Proof.
  intros Hst. unfold apiFetch_settle.
  assert (E : ((status response =? 401) || (status response =? 403))%N = true).
  { destruct Hst as [-> | ->]; reflexivity. }
  rewrite E. cbn [fst snd try_catch].
  destruct (logout_clears w) as [Htok Husr].
  repeat split; try assumption.
  intros Hr. unfold spec_status.
  rewrite (logout_lowers_loading w (reachable_loading_inv w Hr)), Husr.
  reflexivity.
Qed.

Lemma apiFetch_auth_failure_logs_out_witness :
  spec_status (auth signed_in_ada) = Authenticated
  /\ token (auth (fst (apiFetch_settle (Responds forbidden) signed_in_ada)))
     = None
  /\ snd (apiFetch_settle (Responds forbidden) signed_in_ada)
     = Throws (JsError (JStr "Authentication failed (403).")).
Proof.
  split; [reflexivity|].
  pose proof (apiFetch_auth_failure_logs_out forbidden signed_in_ada
                (or_intror eq_refl)) as H.
  destruct H as (_ & Hrej & Htok & _).
  split; [exact Htok | exact Hrej].
Defined.

(** ** [login] and [logout] *)

(** C6, as the code has it: when the storage write throws, [login]
    catches it and records ["Unable to store authentication data."]; the
    token is not adopted: the provider's token, user and loading flag, the
    storage and the pending resolutions stay as they were. *)
Theorem login_storage_failure (newToken : string) (w : World) :
  faulty (localStorage w) = true ->
  step w (CallLogin newToken)
  = setLoginError (Some "Unable to store authentication data.") w.
Proof.
  intros Hf. destruct w as [[tk us ld er] [item flt] infl].
  simpl in Hf. subst flt.
  unfold step, login, commit. simpl.
  destruct tk; simpl; rewrite ?String.eqb_refl; reflexivity.
Qed.

Lemma login_storage_failure_witness :
  faulty (localStorage (mount storage_faulty)) = true
  /\ step (mount storage_faulty) (CallLogin "tok-1")
     = setLoginError (Some "Unable to store authentication data.")
         (mount storage_faulty).
Proof.
  split; [reflexivity|].
  apply (login_storage_failure "tok-1" (mount storage_faulty)).
  reflexivity.
Defined.

(** C6, as stated, fails: after a [login] whose storage write throws, no
    token is held and no resolution has been started. *)
Lemma login_storage_failure_blocks :
  token (auth (run (mount storage_faulty) [CallLogin "tok-1"])) = None
  /\ inflight (run (mount storage_faulty) [CallLogin "tok-1"]) = []
  /\ spec_status (auth (run (mount storage_faulty) [CallLogin "tok-1"]))
     = Unauthenticated
  /\ loginError (auth (run (mount storage_faulty) [CallLogin "tok-1"]))
     = Some "Unable to store authentication data.".
Proof. repeat split; reflexivity. Qed.

(** C7, as the code has it: a second [logout] changes nothing, and a
    [logout] on a provider that holds neither token nor user leaves its
    four state cells, [loginError] included, and the pending resolutions
    as they were. *)
Theorem logout_idempotent (w : World) :
  step (step w CallLogout) CallLogout = step w CallLogout
  /\ (token (auth w) = None -> user (auth w) = None ->
      auth (step w CallLogout) = auth w
      /\ inflight (step w CallLogout) = inflight w).
Proof.
  destruct w as [[tk us ld er] [item flt] infl]. split.
  - unfold step, logout, commit, initializeAuth_begin.
    destruct flt, tk; reflexivity.
  - simpl. intros -> ->. unfold step, logout, commit.
    destruct flt; split; reflexivity.
Qed.

Lemma logout_idempotent_witness :
  token (auth session_expired) = None /\ user (auth session_expired) = None
  /\ auth (step session_expired CallLogout) = auth session_expired.
Proof.
  split; [reflexivity|]. split; [reflexivity|].
  apply (proj2 (logout_idempotent session_expired)); reflexivity.
Defined.

(** C7, as stated, fails: the error left by a failed resolution is still
    there after a [logout] on the signed-out provider. *)
Lemma logout_keeps_stale_error :
  spec_status (auth session_expired) = Unauthenticated
  /\ loginError (auth session_expired)
     = Some "Session expired. Please log in again."
  /\ loginError (auth (step session_expired CallLogout))
     = Some "Session expired. Please log in again.".
Proof. repeat split; reflexivity. Qed.

(** ** Resolutions that overlap *)

Lemma nth_error_last {A} (l : list A) (x : A) :
  nth_error (l ++ [x]) (length l) = Some x.
Proof. induction l as [|y l IH]; simpl; [reflexivity|assumption]. Qed.

Lemma remove_nth_last {A} (l : list A) (x : A) :
  remove_nth (length l) (l ++ [x]) = l.
Proof.
  induction l as [|y l IH]; simpl; [reflexivity|]. now rewrite IH.
Qed.

(** A resolution that completes sets [user] to what it produced, whatever
    token the provider holds by then. *)
Lemma resolution_sets_user (w : World) (i : nat) (t : string)
  (outcome : FetchOutcome) :
  nth_error (inflight w) i = Some t ->
  user (auth (step w (UserFetched i outcome))) = fetchUser_settle outcome.
Proof.
  intros Hi. unfold step. rewrite Hi.
  destruct w as [[tk us ld er] [item flt] infl].
  unfold initializeAuth_resume, commit, initializeAuth_begin, logout.
  destruct (fetchUser_settle outcome) as [u|]; simpl.
  - destruct tk; simpl; rewrite ?String.eqb_refl; reflexivity.
  - destruct flt, tk; reflexivity.
Qed.

Lemma resolution_keeps_token (w : World) (i : nat) (u : User)
  (outcome : FetchOutcome) :
  fetchUser_settle outcome = Some u ->
  token (auth (step w (UserFetched i outcome))) = token (auth w).
Proof.
  intros Hu. unfold step.
  destruct (nth_error (inflight w) i); [|reflexivity].
  rewrite Hu. destruct w as [[tk us ld er] [item flt] infl].
  unfold initializeAuth_resume, commit. simpl.
  destruct tk; simpl; rewrite ?String.eqb_refl; reflexivity.
Qed.

(** The pending resolutions after [login(B)] and after B's resolution has
    completed ahead of the older ones. *)
Lemma login_then_resolved_inflight (w : World) (B : string)
  (outB : FetchOutcome) :
  token (auth w) <> Some B ->
  truthy_str B = true ->
  faulty (localStorage w) = false ->
  let w1 := step w (CallLogin B) in
  inflight w1 = (inflight w ++ [B])%list
  /\ token (auth w1) = Some B
  /\ inflight (step w1 (UserFetched (length (inflight w)) outB)) = inflight w.
Proof.
  intros Hne HB Hf. cbv zeta.
  destruct w as [[tk us ld er] [item flt] infl]. simpl in Hne, Hf. subst flt.
  assert (W1 : step {| auth := {| token := tk; user := us; loadingUser := ld;
                                  loginError := er |};
                       localStorage := {| wp_jwt_token := item;
                                          faulty := false |};
                       inflight := infl |} (CallLogin B)
               = {| auth := {| token := Some B; user := us;
                               loadingUser := true; loginError := None |};
                    localStorage := {| wp_jwt_token := Some B;
                                       faulty := false |};
                    inflight := (infl ++ [B])%list |}).
  { unfold step, login, commit, initializeAuth_begin.
    destruct tk as [t|]; simpl.
    - destruct (t =? B) eqn:Et.
      + apply String.eqb_eq in Et. subst. congruence.
      + rewrite HB. reflexivity.
    - rewrite HB. reflexivity. }
  rewrite W1. cbn [inflight auth token]. repeat split.
  unfold step. cbn [inflight]. rewrite nth_error_last, remove_nth_last.
  unfold initializeAuth_resume, commit, initializeAuth_begin, logout.
  destruct (fetchUser_settle outB); simpl;
    rewrite ?String.eqb_refl; reflexivity.
Qed.

(** C2, as the code has it: the provider does not compare a resolution
    with the token it holds.  When A's resolution is pending at
    [login(B)] and completes after B's, the final [user] is what A's
    resolution produced: A's identity when it succeeded (next to token B
    when B's succeeded too), [null] when it failed. *)
Theorem stale_resolution_is_applied (w : World) (i : nat) (A B : string)
  (outA outB : FetchOutcome) :
  nth_error (inflight w) i = Some A ->
  token (auth w) <> Some B ->
  truthy_str B = true ->
  faulty (localStorage w) = false ->
  nth_error (inflight (run w [CallLogin B])) (length (inflight w)) = Some B
  /\ user (auth (run w [CallLogin B;
                        UserFetched (length (inflight w)) outB]))
     = fetchUser_settle outB
  /\ nth_error (inflight (run w [CallLogin B;
                                 UserFetched (length (inflight w)) outB])) i
     = Some A
  /\ user (auth (run w [CallLogin B;
                        UserFetched (length (inflight w)) outB;
                        UserFetched i outA]))
     = fetchUser_settle outA
  /\ (forall uA uB,
        fetchUser_settle outA = Some uA -> fetchUser_settle outB = Some uB ->
        token (auth (run w [CallLogin B;
                            UserFetched (length (inflight w)) outB;
                            UserFetched i outA]))
        = Some B).
Proof.
  intros Hi Hne HB Hf. unfold run. cbn [fold_left].
  destruct (login_then_resolved_inflight w B outB Hne HB Hf)
    as (Hin1 & Htok1 & Hin2).
  assert (H1 : nth_error (inflight (step w (CallLogin B)))
                         (length (inflight w)) = Some B).
  { rewrite Hin1. apply nth_error_last. }
  assert (H2 : nth_error
                 (inflight (step (step w (CallLogin B))
                              (UserFetched (length (inflight w)) outB))) i
               = Some A).
  { rewrite Hin2. exact Hi. }
  split; [exact H1|].
  split; [exact (resolution_sets_user _ _ _ outB H1)|].
  split; [exact H2|].
  split; [exact (resolution_sets_user _ _ _ outA H2)|].
  intros uA uB HA HBu.
  rewrite (resolution_keeps_token _ i uA outA HA).
  rewrite (resolution_keeps_token _ (length (inflight w)) uB outB HBu).
  exact Htok1.
Qed.

Lemma stale_resolution_is_applied_witness :
  inflight resolving_a = ["tok-A"]
  /\ user (auth (run resolving_a
                    [CallLogin "tok-B";
                     UserFetched (length (inflight resolving_a))
                                 (Responds profile_bob);
                     UserFetched 0 (Responds profile_ada)]))
     = fetchUser_settle (Responds profile_ada).
Proof.
  split; [reflexivity|].
  refine (proj1 (proj2 (proj2 (proj2
    (stale_resolution_is_applied resolving_a 0 "tok-A" "tok-B"
       (Responds profile_ada) (Responds profile_bob) _ _ _ _))))).
  - reflexivity.
  - discriminate.
  - reflexivity.
  - reflexivity.
Defined.

(** C2, as stated, fails: [login("tok-A")], [login("tok-B")], then B's
    resolution (Bob) completes, then A's (Ada).  The provider ends up
    holding token B with A's identity. *)
Lemma stale_identity_wins :
  inflight (run resolving_a [CallLogin "tok-B"]) = ["tok-A"; "tok-B"]
  /\ fetchUser_settle (Responds profile_bob)
     = Some {| id := JNum 3; name := JStr "bob" |}
  /\ token (auth (run resolving_a
                     [CallLogin "tok-B";
                      UserFetched 1 (Responds profile_bob);
                      UserFetched 0 (Responds profile_ada)]))
     = Some "tok-B"
  /\ user (auth (run resolving_a
                    [CallLogin "tok-B";
                     UserFetched 1 (Responds profile_bob);
                     UserFetched 0 (Responds profile_ada)]))
     = Some {| id := JNum 7; name := JStr "Ada" |}
  /\ spec_status (auth (run resolving_a
                           [CallLogin "tok-B";
                            UserFetched 1 (Responds profile_bob);
                            UserFetched 0 (Responds profile_ada)]))
     = Authenticated.
Proof. repeat split; reflexivity. Qed.

(** ** The session between the events of a race-free sequence *)

Lemma settled_inv_mount (s : Storage) : settled_inv (mount s).
Proof.
  destruct s as [[t|] flt];
    unfold settled_inv, mount, initializeAuth_begin; simpl.
  - destruct (truthy_str t) eqn:Ht; simpl;
      repeat split; auto; try congruence.
  - repeat split; auto; congruence.
Qed.

(** [login] and [logout] with nothing pending. *)
Lemma settled_inv_call (w : World) (e : Event) :
  inflight w = [] ->
  (exists t, e = CallLogin t) \/ e = CallLogout ->
  settled_inv w -> settled_inv (step w e).
Proof.
  destruct w as [[tk us ld er] [item flt] infl]. simpl. intros ->.
  unfold settled_inv. simpl.
  intros [[t ->] | ->] (_ & Hld & _ & Hus).
  - unfold step, login, commit, initializeAuth_begin.
    destruct flt; simpl.
    + destruct tk; simpl; rewrite ?String.eqb_refl; simpl;
        repeat split; auto; congruence.
    + destruct tk as [t0|]; simpl.
      * destruct (t0 =? t) eqn:E; simpl.
        -- apply String.eqb_eq in E. subst t0.
           repeat split; auto; congruence.
        -- destruct (truthy_str t) eqn:Ht; simpl;
             repeat split; auto; congruence.
      * destruct (truthy_str t) eqn:Ht; simpl;
          repeat split; auto; congruence.
  - unfold step, logout, commit, initializeAuth_begin.
    destruct flt, tk; simpl; repeat split; auto; congruence.
Qed.

(** A resolution that completes while it is the only one pending. *)
Lemma settled_inv_fetched (w : World) (i : nat) (outcome : FetchOutcome) :
  settled_inv w -> settled_inv (step w (UserFetched i outcome)).
Proof.
  destruct w as [[tk us ld er] [item flt] infl].
  unfold settled_inv. simpl. intros (Hlen & Hld & Htk & Hus).
  destruct infl as [|t [|t' infl]]; simpl in Hlen; [| |lia].
  - destruct i; simpl; repeat split; auto.
  - specialize (Htk ltac:(discriminate)).
    destruct i as [|i]; simpl.
    + unfold initializeAuth_resume, commit, initializeAuth_begin, logout.
      destruct (fetchUser_settle outcome) as [u|]; simpl.
      * destruct tk; simpl; rewrite ?String.eqb_refl; simpl;
          repeat split; auto; congruence.
      * destruct flt, tk; simpl; repeat split; auto; congruence.
    + destruct i; simpl; repeat split; auto; try congruence; lia.
Qed.

Lemma settled_inv_storage (w : World) (b : bool) :
  settled_inv w -> settled_inv (step w (StorageFault b)).
Proof. destruct w as [[tk us ld er] [item flt] infl]. exact (fun H => H). Qed.

Lemma settled_inv_run (events : list Event) (w : World) :
  settled_inv w -> race_free w events = true ->
  settled_inv (run w events).
Proof.
  revert w. induction events as [|e events IH]; intros w Hw Hrf.
  - exact Hw.
  - simpl in Hrf. apply andb_prop in Hrf as [Hhead Hrest].
    simpl. apply IH; [|exact Hrest].
    destruct e as [t| |i outcome|b].
    + destruct (inflight w) eqn:Hin; [|discriminate].
      apply settled_inv_call; eauto.
    + destruct (inflight w) eqn:Hin; [|discriminate].
      apply settled_inv_call; auto.
    + apply settled_inv_fetched, Hw.
    + apply settled_inv_storage, Hw.
Qed.

(** C3, as the code has it: along every sequence in which [login] and
    [logout] are only called while no resolution is pending, the session
    reads as one of the five states, [user] is null whenever no token is
    held, [Authenticated] comes with a held token and a user, and once
    nothing is pending [user] is set exactly when the session reads as
    [Authenticated]. *)
Theorem race_free_session_invariant (s : Storage) (events : list Event) :
  race_free (mount s) events = true ->
  In (spec_status (auth (run (mount s) events)))
     [Initializing; Unauthenticated; Resolving; Authenticated; Invalid]
  /\ (token (auth (run (mount s) events)) = None ->
      user (auth (run (mount s) events)) = None)
  /\ (spec_status (auth (run (mount s) events)) = Authenticated ->
      truthy_token (token (auth (run (mount s) events))) = true
      /\ user (auth (run (mount s) events)) <> None)
  /\ (inflight (run (mount s) events) = [] ->
      (user (auth (run (mount s) events)) <> None
       <-> spec_status (auth (run (mount s) events)) = Authenticated)).
Proof.
  intros Hrf.
  pose proof (settled_inv_run events (mount s) (settled_inv_mount s) Hrf)
    as (_ & Hld & _ & Hus).
  set (w := run (mount s) events) in *.
  assert (Hauth : spec_status (auth w) = Authenticated -> user (auth w) <> None).
  { unfold spec_status. destruct (loadingUser (auth w)).
    - destruct (truthy_token (token (auth w))); intros H; discriminate H.
    - destruct (user (auth w)); intros H; [discriminate|discriminate H]. }
  split; [|split; [|split]].
  - destruct (spec_status (auth w)); simpl; auto 6.
  - intros Ht. destruct (user (auth w)) as [u|] eqn:Hu; [|reflexivity].
    rewrite Ht in Hus. discriminate Hus. discriminate.
  - intros Hst. split; [apply Hus|]; apply Hauth, Hst.
  - intros Hin. split; [|apply Hauth].
    intros Hu. unfold spec_status. rewrite (Hld Hin).
    destruct (user (auth w)); [reflexivity|congruence].
Qed.

Lemma race_free_session_invariant_witness :
  race_free (mount storage_empty) full_cycle = true
  /\ (token (auth (run (mount storage_empty) full_cycle)) = None ->
      user (auth (run (mount storage_empty) full_cycle)) = None)
  /\ (inflight (run (mount storage_empty) full_cycle) = [] ->
      (user (auth (run (mount storage_empty) full_cycle)) <> None
       <-> spec_status (auth (run (mount storage_empty) full_cycle))
           = Authenticated)).
Proof.
  split; [reflexivity|].
  pose proof (race_free_session_invariant storage_empty full_cycle eq_refl)
    as H.
  destruct H as (_ & Hnull & _ & Hiff).
  split; [exact Hnull | exact Hiff].
Defined.

(** C3, as stated, fails twice.  With a race: [login("tok-A")], [logout],
    then A's resolution succeeds, and the provider holds a user without a
    token.  Without one: signed in as Ada, [login("tok-2")] leaves Ada's
    user in place while the session reads as [Resolving]. *)
Lemma identity_without_credential :
  (token (auth (run resolving_a
                    [CallLogout; UserFetched 0 (Responds profile_ada)]))
   = None
   /\ user (auth (run resolving_a
                      [CallLogout; UserFetched 0 (Responds profile_ada)]))
      = Some {| id := JNum 7; name := JStr "Ada" |})
  /\ (spec_status (auth (run signed_in_ada [CallLogin "tok-2"])) = Resolving
      /\ user (auth (run signed_in_ada [CallLogin "tok-2"]))
         = Some {| id := JNum 7; name := JStr "Ada" |}).
Proof. repeat split; reflexivity. Qed.

(** * Further properties of the gateway *)

Lemma values_same_name (h : Headers.t) (a b : string) :
  Headers.same_name a b = true -> Headers.values h a = Headers.values h b.
Proof.
  unfold Headers.same_name. rewrite String.eqb_eq. intros Hab.
  unfold Headers.values, Headers.same_name. now rewrite Hab.
Qed.

Lemma has_same_name (h : Headers.t) (a b : string) :
  Headers.same_name a b = true -> Headers.has h a = Headers.has h b.
Proof.
  intros Hab. rewrite !has_values, (values_same_name h a b Hab). reflexivity.
Qed.





(** A typed request keeps the caller's content type and trace header. *)
Example apiFetch_request_typed :
  exists req,
    apiFetch_request (Some "tok-1") "companies/7" typed_options = Returns req
    /\ Headers.values (req_headers req) "x-trace" = ["abc"]
    /\ Headers.values (req_headers req) "Content-Type" = ["text/csv"].
Proof. eexists. repeat split. Qed.

(** X3: a gateway call resolves exactly when the response has a status
    in 200-299 and a body that is JSON, and then with the parsed body;
    every other outcome ends in a rejection. *)
Theorem apiFetch_resolves_iff (outcome : FetchOutcome) (w : World)
  (data : JsVal) :
  snd (apiFetch_settle outcome w) = Returns data
  <-> exists r, outcome = Responds r /\ ok r = true
                /\ resp_body r = JsonBody data.
Proof.
  split.
  - destruct outcome as [r|e]; [|discriminate].
    unfold apiFetch_settle.
    destruct ((status r =? 401) || (status r =? 403))%N; [discriminate|].
    destruct (ok r) eqn:Hok; cbn [negb snd].
    + unfold response_json. destruct (resp_body r) as [v|txt] eqn:Hb;
        cbn [try_catch]; [|discriminate].
      intros H. injection H as ->. exists r. auto.
    + destruct (response_json r) as [errorData|x]; cbn; [|discriminate].
      destruct (get_prop errorData "message"); discriminate.
  - intros (r & -> & Hok & Hb). unfold apiFetch_settle.
    assert (Hauth : ((status r =? 401) || (status r =? 403))%N = false).
    { unfold ok in Hok. apply andb_prop in Hok as [Hlo Hhi].
      apply N.leb_le in Hhi.
      destruct (status r =? 401)%N eqn:E1;
        [apply N.eqb_eq in E1; rewrite E1 in Hhi; lia|].
      destruct (status r =? 403)%N eqn:E3;
        [apply N.eqb_eq in E3; rewrite E3 in Hhi; lia|].
      reflexivity. }
    rewrite Hauth, Hok. cbn [negb snd]. unfold response_json.
    rewrite Hb. reflexivity.
Qed.

Lemma apiFetch_resolves_iff_witness :
  snd (apiFetch_settle (Responds companies_page) signed_in_ada)
  = Returns (JArr [JObj [("ID", JNum 1); ("name", JStr "Acme")]]).
Proof.
  apply (proj2 (apiFetch_resolves_iff (Responds companies_page) signed_in_ada
                  (JArr [JObj [("ID", JNum 1); ("name", JStr "Acme")]]))).
  exists companies_page. repeat split; reflexivity.
Defined.

(** X4: the only thing a gateway call does to the provider is the
    [logout] after a 401 or 403.  After any other outcome the state cells,
    the storage and the pending resolutions are as before; in every case
    no token is set that was not held and no resolution is started. *)
Theorem apiFetch_only_logs_out (outcome : FetchOutcome) (w : World) :
  fst (apiFetch_settle outcome w)
  = (if auth_rejected outcome then step w CallLogout else w)
  /\ (token (auth (fst (apiFetch_settle outcome w))) = token (auth w)
      \/ token (auth (fst (apiFetch_settle outcome w))) = None)
  /\ inflight (fst (apiFetch_settle outcome w)) = inflight w.
Proof.
  assert (H : fst (apiFetch_settle outcome w)
              = if auth_rejected outcome then step w CallLogout else w).
  { destruct outcome as [r|e]; [|reflexivity].
    unfold apiFetch_settle, auth_rejected.
    destruct ((status r =? 401) || (status r =? 403))%N; [reflexivity|].
    destruct (negb (ok r)); reflexivity. }
  rewrite H. split; [reflexivity|].
  destruct (auth_rejected outcome); [|auto].
  split; [right; apply logout_clears|].
  destruct w as [[tk us ld er] [item flt] infl].
  unfold step, logout, commit, initializeAuth_begin.
  destruct flt, tk; reflexivity.
Qed.

(** X5: for a response outside 200-299 other than 401 and 403 the
    rejection carries the status text of the response, or the fixed text
    ["API request failed (Non-JSON error)"] when the status text is empty;
    the message is never empty and does not depend on the body. *)
Theorem apiFetch_error_message (response : Response) (w : World) :
  auth_rejected (Responds response) = false ->
  ok response = false ->
  exists message,
    snd (apiFetch_settle (Responds response) w)
    = Throws (JsError (JStr message))
    /\ message <> ""
    /\ (statusText response <> "" -> message = statusText response)
    /\ (statusText response = "" ->
        message = "API request failed (Non-JSON error)").
Proof.
  intros Hauth Hok.
  rewrite (apiFetch_settle_other_error response w Hauth Hok). cbn [snd].
  exists (str_or (statusText response) "API request failed (Non-JSON error)").
  unfold str_or, truthy_str.
  destruct (statusText response =? "") eqn:E; cbn [negb].
  - apply String.eqb_eq in E. repeat split; [discriminate|congruence].
  - apply String.eqb_neq in E. repeat split; [assumption|congruence].
Qed.

Lemma apiFetch_error_message_witness :
  exists message,
    snd (apiFetch_settle (Responds bare_error) signed_in_ada)
    = Throws (JsError (JStr message))
    /\ message <> ""
    /\ (statusText bare_error <> "" -> message = statusText bare_error)
    /\ (statusText bare_error = "" ->
        message = "API request failed (Non-JSON error)").
Proof.
  exact (apiFetch_error_message bare_error signed_in_ada eq_refl eq_refl).
Defined.

(** * Further properties of the provider *)

(** X6: [fetchUser] yields a user exactly for a response with a status
    in 200-299 whose body is JSON other than [null]; the user's [id] is
    the body's [id] and its [name] the body's [name], or its [slug] when
    the name is missing or empty.  Every other outcome, a rejected request
    included, yields [null]; nothing is thrown. *)
Theorem fetchUser_settle_user (outcome : FetchOutcome) (u : User) :
  fetchUser_settle outcome = Some u
  <-> exists r v nm sl,
        outcome = Responds r /\ ok r = true /\ resp_body r = JsonBody v
        /\ get_prop v "id" = Returns (id u)
        /\ get_prop v "name" = Returns nm
        /\ get_prop v "slug" = Returns sl
        /\ name u = js_or nm sl.
Proof.
  split.
  - destruct outcome as [r|e]; [|discriminate].
    unfold fetchUser_settle.
    destruct (ok r) eqn:Hok; cbn [negb catch_with]; [|discriminate].
    unfold response_json.
    destruct (resp_body r) as [v|txt] eqn:Hb; cbn; [|discriminate].
    destruct (get_prop v "id") as [uid|x] eqn:Hid; cbn; [|discriminate].
    destruct (get_prop v "name") as [nm|x] eqn:Hnm; cbn; [|discriminate].
    assert (Hsl : exists sl, get_prop v "slug" = Returns sl).
    { destruct v; try discriminate; cbn; eauto. }
    destruct Hsl as [sl Hsl]. rewrite Hsl.
    intros H. exists r, v, nm, sl.
    assert (Hu : u = {| id := uid; name := js_or nm sl |}).
    { unfold js_or. destruct (truthy nm); cbn in H; congruence. }
    subst u. cbn. auto 8.
  - intros (r & v & nm & sl & -> & Hok & Hb & Hid & Hnm & Hsl & Hname).
    unfold fetchUser_settle, response_json. rewrite Hok, Hb. cbn.
    rewrite Hid, Hnm. cbn. destruct u as [uid unm]. cbn in *.
    subst unm. unfold js_or. destruct (truthy nm); cbn.
    + reflexivity.
    + rewrite Hsl. reflexivity.
Qed.

Lemma fetchUser_settle_user_witness :
  fetchUser_settle (Responds profile_bob)
  = Some {| id := JNum 3; name := JStr "bob" |}.
Proof.
  apply (proj2 (fetchUser_settle_user (Responds profile_bob)
                  {| id := JNum 3; name := JStr "bob" |})).
  exists profile_bob,
    (JObj [("id", JNum 3); ("name", JStr ""); ("slug", JStr "bob")]),
    (JStr ""), (JStr "bob").
  repeat split; reflexivity.
Defined.

Lemma pending_inv_mount (s : Storage) : pending_inv (mount s).
Proof.
  destruct s as [[t|] flt];
    unfold pending_inv, mount, initializeAuth_begin; simpl.
  - destruct (truthy_str t); simpl; congruence.
  - congruence.
Qed.

Lemma app_last_not_nil {A} (l : list A) (x : A) : (l ++ [x])%list <> [].
Proof. destruct l; discriminate. Qed.

Lemma pending_inv_step (w : World) (e : Event) :
  pending_inv w -> pending_inv (step w e).
Proof.
  destruct w as [[tk us ld er] [item flt] infl].
  unfold pending_inv. destruct e as [t| |i outcome|b]; simpl.
  - unfold login, commit, initializeAuth_begin. simpl. destruct flt; simpl.
    + destruct tk; simpl; rewrite ?String.eqb_refl; auto.
    + destruct tk as [t0|]; simpl.
      * destruct (t0 =? t) eqn:E; simpl; [auto|].
        destruct (truthy_str t); simpl; intros;
          [apply app_last_not_nil|discriminate].
      * destruct (truthy_str t); simpl; intros;
          [apply app_last_not_nil|discriminate].
  - unfold logout, commit, initializeAuth_begin.
    destruct flt, tk; simpl; auto; discriminate.
  - destruct (nth_error infl i); simpl; [|auto].
    unfold initializeAuth_resume, commit, initializeAuth_begin, logout.
    destruct (fetchUser_settle outcome); simpl.
    + destruct tk; simpl; rewrite ?String.eqb_refl; simpl; discriminate.
    + destruct flt, tk; simpl; discriminate.
  - auto.
Qed.

Lemma pending_inv_run (events : list Event) (w : World) :
  pending_inv w -> pending_inv (run w events).
Proof.
  revert w. induction events as [|e events IH]; intros w Hw; simpl.
  - assumption.
  - apply IH, pending_inv_step, Hw.
Qed.

(** X7: on a mounted provider, however [login], [logout] and the
    resolutions interleave, the loading flag is raised only while a
    non-empty token is held and a [fetchUser] call is awaiting its
    response. *)
Theorem loading_means_pending (w : World) :
  reachable w ->
  loadingUser (auth w) = true ->
  truthy_token (token (auth w)) = true /\ inflight w <> [].
Proof.
  intros Hr Hld. split.
  - pose proof (reachable_loading_inv w Hr) as Hinv. unfold loading_inv in Hinv.
    destruct (truthy_token (token (auth w))); [reflexivity|].
    rewrite (Hinv eq_refl) in Hld. discriminate Hld.
  - destruct Hr as (s & events & ->).
    apply (pending_inv_run events (mount s) (pending_inv_mount s) Hld).
Qed.

Lemma loading_means_pending_witness :
  truthy_token (token (auth resolving_a)) = true /\ inflight resolving_a <> [].
Proof.
  apply (loading_means_pending resolving_a).
  - exists storage_empty, [CallLogin "tok-A"]. reflexivity.
  - reflexivity.
Defined.

Lemma coherent_mount (s : Storage) : faulty s = false -> coherent (mount s).
Proof.
  destruct s as [[t|] flt]; simpl; intros ->;
    unfold coherent, mount, initializeAuth_begin; simpl.
  - destruct (truthy_str t); simpl; auto.
  - auto.
Qed.

Lemma coherent_step (w : World) (e : Event) :
  coherent w -> healthy [e] = true -> coherent (step w e).
Proof.
  destruct w as [[tk us ld er] [item flt] infl].
  unfold coherent. simpl. intros [-> ->] He.
  destruct e as [t| |i outcome|b]; simpl.
  - unfold login, commit, initializeAuth_begin. simpl.
    destruct tk as [t0|]; simpl.
    + destruct (t0 =? t); simpl; [auto|].
      destruct (truthy_str t); simpl; auto.
    + destruct (truthy_str t); simpl; auto.
  - unfold logout, commit, initializeAuth_begin.
    destruct tk; simpl; auto.
  - destruct (nth_error infl i); simpl; [|auto].
    unfold initializeAuth_resume, commit, initializeAuth_begin, logout.
    destruct (fetchUser_settle outcome); simpl.
    + destruct tk; simpl; rewrite ?String.eqb_refl; simpl; auto.
    + destruct tk; simpl; auto.
  - destruct b; [discriminate He|auto].
Qed.

(** X8: as long as the storage does not fail, the token kept under
    ['wp_jwt_token'] and the token in memory are the same after every
    event: what a reload would read is what the provider holds. *)
Theorem stored_token_matches (s : Storage) (events : list Event) :
  faulty s = false ->
  healthy events = true ->
  wp_jwt_token (localStorage (run (mount s) events))
  = token (auth (run (mount s) events)).
Proof.
  intros Hs Hev.
  enough (H : coherent (run (mount s) events)) by apply H.
  pose proof (coherent_mount s Hs) as Hc.
  generalize dependent (mount s). clear Hs s.
  induction events as [|e events IH]; intros w Hc; [exact Hc|].
  simpl in Hev. apply andb_prop in Hev as [He Hrest].
  simpl. apply IH; [exact Hrest|].
  apply coherent_step; [exact Hc|]. simpl. now rewrite He.
Qed.

Lemma stored_token_matches_witness :
  wp_jwt_token (localStorage (run (mount storage_empty) full_cycle))
  = token (auth (run (mount storage_empty) full_cycle)).
Proof.
  apply (stored_token_matches storage_empty full_cycle); reflexivity.
Defined.

(** X9: a reload reads back what the provider last wrote.  With a
    working storage, the provider mounted after [login(t)] holds [t] and
    is resolving it, and the provider mounted after [logout] holds nothing
    and is not loading. *)
Theorem session_survives_reload (w : World) (t : string) :
  faulty (localStorage w) = false ->
  truthy_str t = true ->
  mount (localStorage (step w (CallLogin t)))
  = {| auth := {| token := Some t; user := None; loadingUser := true;
                  loginError := None |};
       localStorage := {| wp_jwt_token := Some t; faulty := false |};
       inflight := [t] |}
  /\ mount (localStorage (step w CallLogout))
     = {| auth := {| token := None; user := None; loadingUser := false;
                     loginError := None |};
          localStorage := {| wp_jwt_token := None; faulty := false |};
          inflight := [] |}.
Proof.
  intros Hf Ht. destruct w as [[tk us ld er] [item flt] infl].
  simpl in Hf. subst flt. split.
  - unfold step, login, commit, initializeAuth_begin. simpl.
    assert (Hs : forall w', localStorage w'
                            = {| wp_jwt_token := Some t; faulty := false |} ->
                 mount (localStorage w')
                 = {| auth := {| token := Some t; user := None;
                                 loadingUser := true; loginError := None |};
                      localStorage := {| wp_jwt_token := Some t;
                                         faulty := false |};
                      inflight := [t] |}).
    { intros w' ->. unfold mount, initializeAuth_begin. simpl.
      rewrite Ht. reflexivity. }
    apply Hs.
    destruct (token_eqb tk (Some t)); simpl; [reflexivity|].
    rewrite Ht. reflexivity.
  - unfold step, logout, commit, initializeAuth_begin.
    destruct tk; reflexivity.
Qed.

Lemma session_survives_reload_witness :
  token (auth (mount (localStorage (step signed_in_ada (CallLogin "tok-9")))))
  = Some "tok-9"
  /\ token (auth (mount (localStorage (step signed_in_ada CallLogout))))
     = None.
Proof.
  destruct (session_survives_reload signed_in_ada "tok-9" eq_refl eq_refl)
    as [Hin Hout].
  rewrite Hin, Hout. split; reflexivity.
Defined.

(** X10: when removing the stored token fails, [logout] still clears the
    token and the user in memory, but the stored token stays: a provider
    mounted on that storage starts with the token the user logged out
    of. *)
Theorem logout_with_failing_storage (w : World) :
  faulty (localStorage w) = true ->
  token (auth (step w CallLogout)) = None
  /\ user (auth (step w CallLogout)) = None
  /\ localStorage (step w CallLogout) = localStorage w
  /\ token (auth (mount (localStorage (step w CallLogout))))
     = wp_jwt_token (localStorage w).
Proof.
  intros Hf. destruct w as [[tk us ld er] [item flt] infl].
  simpl in Hf. subst flt.
  assert (Hs : localStorage
                 (step {| auth := {| token := tk; user := us;
                                     loadingUser := ld; loginError := er |};
                          localStorage := {| wp_jwt_token := item;
                                             faulty := true |};
                          inflight := infl |} CallLogout)
               = {| wp_jwt_token := item; faulty := true |}).
  { unfold step, logout, commit, initializeAuth_begin.
    destruct tk; reflexivity. }
  split; [apply logout_clears|]. split; [apply logout_clears|].
  split; [exact Hs|]. rewrite Hs.
  unfold mount, initializeAuth_begin. simpl.
  destruct item as [t|]; simpl; [|reflexivity].
  destruct (truthy_str t); reflexivity.
Qed.

Lemma logout_with_failing_storage_witness :
  token (auth (step (step signed_in_ada (StorageFault true)) CallLogout))
  = None
  /\ token (auth (mount (localStorage
                          (step (step signed_in_ada (StorageFault true))
                                CallLogout))))
     = Some "tok-1".
Proof.
  destruct (logout_with_failing_storage
              (step signed_in_ada (StorageFault true)) eq_refl)
    as (Htok & _ & _ & Hre).
  split; [exact Htok | exact Hre].
Defined.

(** X11: [login] with the token that is already held starts no
    resolution: the token, the user, the loading flag and the pending
    resolutions stay as they are; the token is written to the storage
    again and the error is cleared. *)
Theorem login_same_token (w : World) (t : string) :
  token (auth w) = Some t ->
  faulty (localStorage w) = false ->
  step w (CallLogin t)
  = setLoginError None
      (with_storage {| wp_jwt_token := Some t; faulty := false |} w).
Proof.
  destruct w as [[tk us ld er] [item flt] infl]. simpl.
  intros -> ->. unfold step, login, commit. simpl.
  rewrite String.eqb_refl. reflexivity.
Qed.

Lemma login_same_token_witness :
  step signed_in_ada (CallLogin "tok-1") = signed_in_ada.
Proof.
  rewrite (login_same_token signed_in_ada "tok-1" eq_refl eq_refl).
  reflexivity.
Defined.

Lemma login_new_token_state (w : World) (t : string) :
  token (auth w) <> Some t ->
  truthy_str t = true ->
  faulty (localStorage w) = false ->
  step w (CallLogin t)
  = {| auth := {| token := Some t; user := user (auth w);
                  loadingUser := true; loginError := None |};
       localStorage := {| wp_jwt_token := Some t; faulty := false |};
       inflight := (inflight w ++ [t])%list |}.
Proof.
  intros Hne Ht Hf. destruct w as [[tk us ld er] [item flt] infl].
  simpl in Hne, Hf. subst flt.
  unfold step, login, commit, initializeAuth_begin.
  destruct tk as [t0|]; simpl.
  - destruct (t0 =? t) eqn:E.
    + apply String.eqb_eq in E. subst. congruence.
    + rewrite Ht. reflexivity.
  - rewrite Ht. reflexivity.
Qed.

(** X12: [login] with a non-empty token other than the held one, on a
    working storage, stores the token, holds it, clears the error, raises
    the loading flag and starts one resolution for it behind those already
    pending; the user of the previous session is left in place until that
    resolution completes. *)
Theorem login_new_token (w : World) (t : string) :
  token (auth w) <> Some t ->
  truthy_str t = true ->
  faulty (localStorage w) = false ->
  token (auth (step w (CallLogin t))) = Some t
  /\ wp_jwt_token (localStorage (step w (CallLogin t))) = Some t
  /\ loginError (auth (step w (CallLogin t))) = None
  /\ loadingUser (auth (step w (CallLogin t))) = true
  /\ inflight (step w (CallLogin t)) = (inflight w ++ [t])%list
  /\ user (auth (step w (CallLogin t))) = user (auth w).
Proof.
  intros Hne Ht Hf. rewrite (login_new_token_state w t Hne Ht Hf).
  repeat split.
Qed.

Lemma login_new_token_witness :
  user (auth (step signed_in_ada (CallLogin "tok-2")))
  = Some {| id := JNum 7; name := JStr "Ada" |}
  /\ inflight (step signed_in_ada (CallLogin "tok-2")) = ["tok-2"].
Proof.
  destruct (login_new_token signed_in_ada "tok-2"
              ltac:(discriminate) eq_refl eq_refl)
    as (_ & _ & _ & _ & Hin & Hus).
  rewrite Hin, Hus. split; reflexivity.
Defined.

(** X13: a resolution that fails, for whichever token it was started,
    signs the provider out: the token and the user are cleared, the error
    reads ["Session expired. Please log in again."], the loading flag is
    lowered, and on a working storage the stored token is removed. *)
Theorem failed_resolution_signs_out (w : World) (i : nat) (t : string)
  (outcome : FetchOutcome) :
  nth_error (inflight w) i = Some t ->
  fetchUser_settle outcome = None ->
  auth (step w (UserFetched i outcome))
  = {| token := None; user := None; loadingUser := false;
       loginError := Some "Session expired. Please log in again." |}
  /\ inflight (step w (UserFetched i outcome)) = remove_nth i (inflight w)
  /\ (faulty (localStorage w) = false ->
      wp_jwt_token (localStorage (step w (UserFetched i outcome))) = None).
Proof.
  intros Hi Hnone. unfold step. rewrite Hi, Hnone.
  destruct w as [[tk us ld er] [item flt] infl].
  unfold initializeAuth_resume, commit, initializeAuth_begin, logout.
  destruct flt, tk; simpl; repeat split; auto; discriminate.
Qed.

Lemma failed_resolution_signs_out_witness :
  auth (step (step resolving_a (CallLogin "tok-B"))
             (UserFetched 0 (Rejects (TypeError "Failed to fetch"))))
  = {| token := None; user := None; loadingUser := false;
       loginError := Some "Session expired. Please log in again." |}.
Proof.
  exact (proj1 (failed_resolution_signs_out
                  (step resolving_a (CallLogin "tok-B")) 0 "tok-A"
                  (Rejects (TypeError "Failed to fetch"))
                  eq_refl eq_refl)).
Defined.



(** * The two revisions of the provider *)

Lemma rev1_mount_agrees (s : Storage) :
  wp_jwt_token s <> Some "" ->
  Rev1.mount s = without_error (mount s).
Proof.
  destruct s as [[t|] flt]; simpl; intros Hne.
  - unfold Rev1.mount, Rev1.effect_begin, Rev1.AuthProvider_init,
      Rev1.initial_token, mount, initializeAuth_begin, AuthProvider_init.
    simpl. destruct (truthy_str t) eqn:Ht; simpl.
    + rewrite Ht. reflexivity.
    + unfold truthy_str in Ht. apply negb_false_iff in Ht.
      apply String.eqb_eq in Ht. subst. congruence.
  - reflexivity.
Qed.

Lemma rev1_step_agrees (w : World) (e : Event) :
  faulty (localStorage w) = false ->
  healthy [e] = true ->
  Rev1.step (without_error w) e = (without_error (step w e), None)
  /\ faulty (localStorage (step w e)) = false.
Proof.
  destruct w as [[tk us ld er] [item flt] infl]. simpl. intros -> He.
  destruct e as [t| |i outcome|b].
  - unfold Rev1.step, Rev1.login, Rev1.commit, Rev1.effect_begin,
      step, login, commit, initializeAuth_begin, without_error. simpl.
    destruct tk as [t0|]; simpl.
    + destruct (t0 =? t); simpl; [auto|].
      destruct (truthy_str t); simpl; auto.
    + destruct (truthy_str t); simpl; auto.
  - unfold Rev1.step, Rev1.logout, Rev1.commit, Rev1.effect_begin,
      step, logout, commit, initializeAuth_begin, without_error.
    destruct tk; simpl; auto.
  - unfold Rev1.step, step, without_error. simpl.
    destruct (nth_error infl i); simpl; [|auto].
    unfold Rev1.effect_then, Rev1.logout, Rev1.commit, Rev1.effect_begin,
      initializeAuth_resume, commit, initializeAuth_begin, logout.
    destruct (fetchUser_settle outcome); simpl.
    + destruct tk; simpl; rewrite ?String.eqb_refl; simpl; auto.
    + destruct tk; simpl; auto.
  - destruct b; [discriminate He|]. split; reflexivity.
Qed.

Lemma rev1_run_agrees (events : list Event) (w : World) (thrown : list Exn) :
  faulty (localStorage w) = false ->
  healthy events = true ->
  Rev1.run (without_error w) thrown events
  = (without_error (run w events), thrown).
Proof.
  revert w. induction events as [|e events IH]; intros w Hf Hev.
  - reflexivity.
  - simpl in Hev. apply andb_prop in Hev as [He Hrest].
    assert (He' : healthy [e] = true) by (simpl; now rewrite He).
    destruct (rev1_step_agrees w e Hf He') as [Hstep Hf'].
    simpl. rewrite Hstep. apply IH; assumption.
Qed.

(** X15: as long as the storage does not fail and does not start out
    holding an empty token, the two revisions of the provider go through
    the same tokens, users, loading flags, stored tokens and pending
    resolutions on every sequence of events, and the earlier one throws
    nothing; the later one differs only by its [loginError] cell. *)
Theorem revisions_agree (s : Storage) (events : list Event) :
  faulty s = false ->
  wp_jwt_token s <> Some "" ->
  healthy events = true ->
  Rev1.run (Rev1.mount s) [] events
  = (without_error (run (mount s) events), []).
Proof.
  intros Hf Hne Hev. rewrite (rev1_mount_agrees s Hne).
  apply rev1_run_agrees; [|exact Hev].
  destruct s as [[t|] flt]; simpl in Hf; subst flt;
    unfold mount, initializeAuth_begin; simpl; [|reflexivity].
  destruct (truthy_str t); reflexivity.
Qed.

Lemma revisions_agree_witness :
  Rev1.run (Rev1.mount storage_empty) [] full_cycle
  = (without_error (run (mount storage_empty) full_cycle), []).
Proof.
  apply (revisions_agree storage_empty full_cycle);
    [reflexivity|discriminate|reflexivity].
Defined.

(** X16: in the earlier revision a failing storage is not caught.
    [login] throws to its caller and leaves the provider as it was; a
    resolution that fails throws out of the [.then] callback before
    anything is cleared, so the token and the user stay and a raised
    loading flag is never lowered. *)
Theorem rev1_storage_failure (w : World) (newToken : string) (i : nat)
  (t : string) (outcome : FetchOutcome) :
  faulty (localStorage w) = true ->
  nth_error (inflight w) i = Some t ->
  fetchUser_settle outcome = None ->
  Rev1.step w (CallLogin newToken)
  = (w, Some (JsError (JStr "QuotaExceededError")))
  /\ Rev1.step w (UserFetched i outcome)
     = (with_inflight (remove_nth i (inflight w)) w,
        Some (JsError (JStr "SecurityError"))).
Proof.
  intros Hf Hi Hnone. destruct w as [[tk us ld er] [item flt] infl].
  simpl in Hf, Hi. subst flt. split.
  - reflexivity.
  - unfold Rev1.step. cbn [inflight]. rewrite Hi, Hnone. reflexivity.
Qed.

Lemma rev1_storage_failure_witness :
  loadingUser (auth (fst (Rev1.step
                            (step resolving_a (StorageFault true))
                            (UserFetched 0 (Responds forbidden)))))
  = true
  /\ snd (Rev1.step (step resolving_a (StorageFault true))
                    (UserFetched 0 (Responds forbidden)))
     = Some (JsError (JStr "SecurityError")).
Proof.
  rewrite (proj2 (rev1_storage_failure
                    (step resolving_a (StorageFault true)) "tok-9" 0 "tok-A"
                    (Responds forbidden) eq_refl eq_refl eq_refl)).
  split; reflexivity.
Defined.

(** * Routing *)

Lemma screen_at_rest (context : AuthContextType) (r : Route) :
  screen context (follow 2 context r)
  = (if loadingUser context then LoadingApplication
     else match user context with
          | Some _ => DashboardPageElement
          | None => LoginFormElement
          end).
Proof. destruct context as [tk [u|] [|] er]; destruct r; reflexivity. Qed.

(** X17: from any of the three routes and in any state of the provider,
    the navigations of [Navigate] and of [LoginPage]'s effect come to rest
    within two steps, without a loop: on the provider's loading element
    while [loadingUser] holds, on the dashboard when a user is set, on the
    login form otherwise.  The loading elements of [PrivateRoute] and of
    [LoginPage] never reach the screen. *)
Theorem navigation_settles (context : AuthContextType) (r : Route) :
  navigation context (follow 2 context r) = None
  /\ screen context (follow 2 context r)
     = (if loadingUser context then LoadingApplication
        else match user context with
             | Some _ => DashboardPageElement
             | None => LoginFormElement
             end)
  /\ (forall r', screen context r' <> LoadingApplicationState
                 /\ screen context r' <> CheckingAuthentication).
Proof.
  destruct context as [tk [u|] [|] er]; destruct r;
    (split; [reflexivity|split; [reflexivity|]]);
    intros r'; destruct r'; split; discriminate.
Qed.

(** X18: after a gateway call answered 401 or 403 on a mounted provider,
    the application comes to rest on the login form, from whichever route
    the call was made. *)
Theorem auth_failure_leads_to_login (outcome : FetchOutcome) (w : World)
  (r : Route) :
  reachable w ->
  auth_rejected outcome = true ->
  screen (auth (fst (apiFetch_settle outcome w)))
         (follow 2 (auth (fst (apiFetch_settle outcome w))) r)
  = LoginFormElement.
Proof.
  intros Hr Hrej.
  assert (H : fst (apiFetch_settle outcome w) = step w CallLogout).
  { destruct outcome as [resp|e]; [|discriminate Hrej].
    unfold apiFetch_settle. cbn [auth_rejected] in Hrej. now rewrite Hrej. }
  rewrite H.
  pose proof (logout_lowers_loading w (reachable_loading_inv w Hr)) as Hld.
  destruct (logout_clears w) as [_ Hus].
  rewrite screen_at_rest, Hld, Hus. reflexivity.
Qed.

Lemma auth_failure_leads_to_login_witness :
  screen (auth (fst (apiFetch_settle (Responds forbidden) signed_in_ada)))
         (follow 2 (auth (fst (apiFetch_settle (Responds forbidden)
                                               signed_in_ada)))
                 DashboardRoute)
  = LoginFormElement.
Proof.
  apply (auth_failure_leads_to_login (Responds forbidden) signed_in_ada
           DashboardRoute).
  - exists storage_empty,
      [CallLogin "tok-1"; UserFetched 0 (Responds profile_ada)].
    reflexivity.
  - reflexivity.
Defined.

(** * The login form *)

Lemma str_or_not_empty (a b : string) : b <> "" -> str_or a b <> "".
Proof.
  intros Hb. unfold str_or, truthy_str.
  destruct (a =? "") eqn:E; cbn [negb]; [exact Hb|].
  now apply String.eqb_neq in E.
Qed.

(** X19: when the login request settles, the form is no longer loading
    and exactly one of two things has happened.  Either [login] was called,
    with the [token] property of the JSON body of a response in 200-299,
    and both fields were emptied; or [login] was not called, the fields
    keep what the user typed and the form shows a non-empty error. *)
Theorem login_form_settles (outcome : FetchOutcome) (st : LoginForm.State) :
  LoginForm.loading (fst (LoginForm.handleSubmit_settle outcome st)) = false
  /\ match snd (LoginForm.handleSubmit_settle outcome st) with
     | Some receivedToken =>
         (exists r data,
             outcome = Responds r /\ ok r = true
             /\ resp_body r = JsonBody data
             /\ get_prop data "token" = Returns receivedToken)
         /\ LoginForm.username (fst (LoginForm.handleSubmit_settle outcome st))
            = ""
         /\ LoginForm.password (fst (LoginForm.handleSubmit_settle outcome st))
            = ""
         /\ LoginForm.error (fst (LoginForm.handleSubmit_settle outcome st))
            = LoginForm.error st
     | None =>
         (exists message,
             LoginForm.error (fst (LoginForm.handleSubmit_settle outcome st))
             = Some message /\ message <> "")
         /\ LoginForm.username (fst (LoginForm.handleSubmit_settle outcome st))
            = LoginForm.username st
         /\ LoginForm.password (fst (LoginForm.handleSubmit_settle outcome st))
            = LoginForm.password st
     end.
Proof.
  unfold LoginForm.handleSubmit_settle.
  destruct (LoginForm.attempt outcome) as [receivedToken|err] eqn:Hat;
    cbn [fst snd LoginForm.loading LoginForm.username LoginForm.password
         LoginForm.error].
  - split; [reflexivity|]. split; [|auto].
    unfold LoginForm.attempt in Hat.
    destruct outcome as [r|e]; cbn in Hat; [|discriminate].
    destruct (ok r) eqn:Hok; cbn in Hat.
    + unfold response_json in Hat.
      destruct (resp_body r) as [data|txt] eqn:Hb; cbn in Hat;
        [|discriminate].
      exists r, data. auto.
    + destruct (response_json r) as [errorData|x]; cbn in Hat;
        [|discriminate].
      destruct (get_prop errorData "message"); discriminate.
  - split; [reflexivity|]. split; [|auto].
    eexists. split; [reflexivity|].
    apply str_or_not_empty. discriminate.
Qed.

(** X20: a login answered with a status outside 200-299 and a JSON
    object shows the object's [message] when that is a non-empty string,
    and ["Login failed. Please check your credentials."] when the object
    has no [message] or a falsy one. *)
Theorem login_form_error_message (r : Response) (st : LoginForm.State)
  (fields : list (string * JsVal)) :
  ok r = false ->
  resp_body r = JsonBody (JObj fields) ->
  (forall m, assoc "message" fields = JStr m -> m <> "" ->
             LoginForm.error
               (fst (LoginForm.handleSubmit_settle (Responds r) st))
             = Some m)
  /\ (truthy (assoc "message" fields) = false ->
      LoginForm.error (fst (LoginForm.handleSubmit_settle (Responds r) st))
      = Some "Login failed. Please check your credentials.").
Proof.
  intros Hok Hb.
  unfold LoginForm.handleSubmit_settle, LoginForm.attempt, response_json.
  cbn [awaited bind]. rewrite Hok, Hb. cbn [negb bind get_prop].
  split.
  - intros m Hm Hne. rewrite Hm. unfold js_or. cbn [truthy].
    assert (Ht : truthy_str m = true).
    { unfold truthy_str. apply negb_true_iff. now apply String.eqb_neq. }
    rewrite Ht. cbn. unfold str_or. rewrite Ht. reflexivity.
  - intros Hf. unfold js_or. rewrite Hf. reflexivity.
Qed.

Lemma login_form_error_message_witness :
  LoginForm.error
    (fst (LoginForm.handleSubmit_settle (Responds bad_credentials)
                                        typed_credentials))
  = Some "The password is incorrect.".
Proof.
  apply (proj1 (login_form_error_message bad_credentials typed_credentials
                  [("code", JStr "incorrect_password");
                   ("message", JStr "The password is incorrect.")]
                  eq_refl eq_refl)
               "The password is incorrect." eq_refl).
  discriminate.
Defined.

(** X21: from the login form to the dashboard.  When the login
    response is in 200-299 and its JSON body holds a non-empty string
    token other than the held one, on a working storage, the form's
    [login] call puts the provider's loading element on screen at every
    route while the token is being resolved; when the resolution then
    yields a user, the application comes to rest on the dashboard. *)
Theorem login_leads_to_dashboard (r : Response) (data : JsVal)
  (st : LoginForm.State) (w : World) (t : string) (profile : FetchOutcome)
  (u : User) (route : Route) :
  ok r = true ->
  resp_body r = JsonBody data ->
  get_prop data "token" = Returns (JStr t) ->
  truthy_str t = true ->
  token (auth w) <> Some t ->
  faulty (localStorage w) = false ->
  fetchUser_settle profile = Some u ->
  exists w1,
    login_call (snd (LoginForm.handleSubmit_settle (Responds r) st)) w
    = Some w1
    /\ screen (auth w1) route = LoadingApplication
    /\ screen
         (auth (step w1 (UserFetched (length (inflight w)) profile)))
         (follow 2
            (auth (step w1 (UserFetched (length (inflight w)) profile)))
            route)
       = DashboardPageElement.
Proof.
  intros Hok Hb Htok Ht Hne Hf Hu.
  exists (step w (CallLogin t)). split.
  - unfold LoginForm.handleSubmit_settle, LoginForm.attempt, response_json.
    cbn [awaited bind]. rewrite Hok, Hb. cbn [negb bind]. rewrite Htok.
    reflexivity.
  - destruct (login_then_resolved_inflight w t profile Hne Ht Hf)
      as (Hin & _ & _).
    assert (Hnth : nth_error (inflight (step w (CallLogin t)))
                             (length (inflight w)) = Some t).
    { rewrite Hin. apply nth_error_last. }
    split.
    + rewrite (login_new_token_state w t Hne Ht Hf). reflexivity.
    + rewrite screen_at_rest.
      rewrite (resolution_sets_user _ _ _ profile Hnth), Hu.
      assert (Hld : loadingUser
                      (auth (step (step w (CallLogin t))
                                  (UserFetched (length (inflight w)) profile)))
                    = false).
      { unfold step at 1. rewrite Hnth, Hu.
        rewrite (login_new_token_state w t Hne Ht Hf).
        unfold initializeAuth_resume, commit. simpl.
        rewrite String.eqb_refl. reflexivity. }
      rewrite Hld. reflexivity.
Qed.

Lemma login_leads_to_dashboard_witness :
  exists w1,
    login_call (snd (LoginForm.handleSubmit_settle (Responds token_issued)
                                                   typed_credentials))
               (mount storage_empty)
    = Some w1
    /\ screen (auth w1) LoginRoute = LoadingApplication
    /\ screen
         (auth (step w1 (UserFetched (length (inflight (mount storage_empty)))
                                     (Responds profile_ada))))
         (follow 2
            (auth (step w1 (UserFetched
                              (length (inflight (mount storage_empty)))
                              (Responds profile_ada))))
            LoginRoute)
       = DashboardPageElement.
Proof.
  exact (login_leads_to_dashboard token_issued
           (JObj [("token", JStr "tok-1");
                  ("user_email", JStr "ada@example.org")])
           typed_credentials (mount storage_empty) "tok-1"
           (Responds profile_ada) {| id := JNum 7; name := JStr "Ada" |}
           LoginRoute
           eq_refl eq_refl eq_refl eq_refl ltac:(discriminate) eq_refl
           eq_refl).
Defined.

(** * The input bar and the dashboard page *)

Lemma trimStart_split (s : string) :
  exists pre, s = pre ++ NexusInputBar.trimStart s /\ all_space pre = true.
Proof.
  induction s as [|c s IH]; simpl.
  - exists "". auto.
  - destruct (NexusInputBar.is_space c) eqn:Hc.
    + destruct IH as (pre & Hs & Hpre). exists (String c pre). simpl.
      rewrite Hc, Hpre. split; [now rewrite <- Hs|reflexivity].
    + exists "". auto.
Qed.

Lemma trimStart_head (s : string) :
  starts_with_space (NexusInputBar.trimStart s) = false.
Proof.
  induction s as [|c s IH]; simpl; [reflexivity|].
  destruct (NexusInputBar.is_space c) eqn:Hc; [exact IH|].
  simpl. exact Hc.
Qed.

Lemma trimStart_empty (s : string) :
  NexusInputBar.trimStart s = "" -> all_space s = true.
Proof.
  induction s as [|c s IH]; simpl; [reflexivity|].
  destruct (NexusInputBar.is_space c); [exact IH|discriminate].
Qed.

Lemma trimEnd_split (s : string) :
  exists post, s = NexusInputBar.trimEnd s ++ post /\ all_space post = true.
Proof.
  induction s as [|c s IH]; simpl.
  - exists "". auto.
  - destruct IH as (post & Hs & Hpost).
    destruct (NexusInputBar.trimEnd s) as [|k kept] eqn:Hk.
    + simpl in Hs. subst post.
      destruct (NexusInputBar.is_space c) eqn:Hc.
      * exists (String c s). simpl. rewrite Hc, Hpost. auto.
      * exists s. auto.
    + exists post. simpl. split; [now rewrite Hs at 1|exact Hpost].
Qed.

Lemma trimEnd_tail (s : string) :
  ends_with_space (NexusInputBar.trimEnd s) = false.
Proof.
  induction s as [|c s IH]; simpl; [reflexivity|].
  destruct (NexusInputBar.trimEnd s) as [|k kept] eqn:Hk.
  - destruct (NexusInputBar.is_space c) eqn:Hc; simpl; [reflexivity|exact Hc].
  - exact IH.
Qed.

Lemma trimEnd_head (s : string) :
  starts_with_space s = false ->
  starts_with_space (NexusInputBar.trimEnd s) = false
  /\ (s <> "" -> NexusInputBar.trimEnd s <> "").
Proof.
  destruct s as [|c s]; simpl; [auto|]. intros Hc.
  destruct (NexusInputBar.trimEnd s) as [|k kept].
  - rewrite Hc. simpl. split; [exact Hc|discriminate].
  - simpl. split; [exact Hc|discriminate].
Qed.

Lemma all_space_app (a b : string) :
  all_space (a ++ b) = all_space a && all_space b.
Proof.
  induction a as [|c a IH]; simpl; [reflexivity|].
  now rewrite IH, andb_assoc.
Qed.

(** X22: the input bar calls [onQuerySubmit] exactly when the typed text
    holds something other than white space, and then with that text
    stripped of the white space around it: the submitted query is never
    empty and neither starts nor ends with white space.  (ASCII text.) *)
Theorem input_bar_submits_trimmed (query : string) :
  ascii_text query = true ->
  match NexusInputBar.handleSubmit query with
  | Some submitted =>
      submitted <> ""
      /\ starts_with_space submitted = false
      /\ ends_with_space submitted = false
      /\ exists pre post,
           query = pre ++ submitted ++ post
           /\ all_space pre = true /\ all_space post = true
  | None => all_space query = true
  end.
Proof.
  intros _. unfold NexusInputBar.handleSubmit, NexusInputBar.trim.
  destruct (trimStart_split query) as (pre & Hq & Hpre).
  destruct (trimEnd_split (NexusInputBar.trimStart query))
    as (post & Ht & Hpost).
  pose proof (trimStart_head query) as Hhead.
  destruct (trimEnd_head _ Hhead) as [Hhead' Hne].
  pose proof (trimEnd_tail (NexusInputBar.trimStart query)) as Htail.
  unfold truthy_str.
  destruct (NexusInputBar.trimEnd (NexusInputBar.trimStart query) =? "")
    eqn:E; cbn [negb].
  - apply String.eqb_eq in E.
    destruct (NexusInputBar.trimStart query) as [|c rest] eqn:Hts.
    + now apply trimStart_empty.
    + exfalso. apply Hne; [discriminate|exact E].
  - apply String.eqb_neq in E.
    split; [exact E|]. split; [exact Hhead'|]. split; [exact Htail|].
    exists pre, post. split; [|auto].
    rewrite <- Ht. exact Hq.
Qed.

Lemma input_bar_submits_trimmed_witness :
  NexusInputBar.handleSubmit "  unpaid invoices " = Some "unpaid invoices"
  /\ all_space "   " = true.
Proof.
  split; [reflexivity|].
  exact (input_bar_submits_trimmed "   " eq_refl).
Defined.

Example dashboard_quote : Dashboard.quote = String (ascii_of_nat 34) "".
Proof. reflexivity. Qed.

Example dashboard_unimplemented_action :
  Dashboard.queryResult
    (Dashboard.handleActionClick "Add Expense" Dashboard.initial)
  = JObj [("message",
           JStr ("Action " ++ Dashboard.quote ++ "Add Expense"
                 ++ Dashboard.quote ++ " is not yet implemented."))].
Proof. reflexivity. Qed.

Lemma one_query_step (p : Dashboard.Page) (e : Dashboard.Event) :
  Dashboard.one_query p -> Dashboard.one_query (Dashboard.step p e).
Proof.
  destruct p as [[view refresh result ld] pend].
  unfold Dashboard.one_query. cbn [Dashboard.pending Dashboard.page_state
    Dashboard.queryLoading].
  destruct e as [a| | | |typed|i result']; cbn [Dashboard.step
    Dashboard.page_state Dashboard.pending].
  - destruct (Dashboard.action_grid_shown _); [|exact (fun H => H)].
    unfold Dashboard.handleActionClick. cbn.
    destruct (a =? "View All Companies"); [exact (fun H => H)|].
    destruct (a =? "Add New Company"); exact (fun H => H).
  - destruct (Dashboard.back_button_shown _); exact (fun H => H).
  - exact (fun H => H).
  - destruct (Dashboard.cancel_button_shown _); exact (fun H => H).
  - unfold Dashboard.input_bar_enabled. cbn.
    destruct ld; cbn [negb]; [exact (fun H => H)|].
    destruct (NexusInputBar.handleSubmit typed); [|exact (fun H => H)].
    destruct pend as [|q [|q' pend]]; cbn; intros H;
      [reflexivity|discriminate H|contradiction].
  - destruct pend as [|q [|q' pend]]; intros H.
    + destruct i; exact H.
    + destruct i as [|[|i]]; cbn; [reflexivity|exact H|exact H].
    + contradiction.
Qed.

Lemma one_query_run (events : list Dashboard.Event) (p : Dashboard.Page) :
  Dashboard.one_query p -> Dashboard.one_query (Dashboard.run p events).
Proof.
  revert p. induction events as [|e events IH]; intros p Hp; simpl.
  - exact Hp.
  - apply IH, one_query_step, Hp.
Qed.

(** X23: on the dashboard page queries never overlap.  Whatever is
    clicked, typed, submitted or answered, and whenever company forms
    report back, at most one query is awaiting its answer, and the page's
    loading flag is raised exactly while one is: a query submitted while
    another is processing is not sent. *)
Theorem queries_never_overlap (events : list Dashboard.Event) :
  length (Dashboard.pending (Dashboard.run Dashboard.mounted events)) <= 1
  /\ (Dashboard.queryLoading
        (Dashboard.page_state (Dashboard.run Dashboard.mounted events))
      = true
      <-> Dashboard.pending (Dashboard.run Dashboard.mounted events) <> []).
Proof.
  pose proof (one_query_run events Dashboard.mounted eq_refl) as H.
  unfold Dashboard.one_query in H.
  destruct (Dashboard.pending (Dashboard.run Dashboard.mounted events))
    as [|q [|q' rest]].
  - rewrite H. split; [simpl; lia|]. split; [discriminate|congruence].
  - rewrite H. split; [simpl; lia|]. split; [discriminate|reflexivity].
  - contradiction.
Qed.

Lemma queries_never_overlap_witness :
  Dashboard.pending (Dashboard.run Dashboard.mounted
                       [Dashboard.SubmitQuery "  unpaid invoices ";
                        Dashboard.SubmitQuery "second try"])
  = ["unpaid invoices"]
  /\ length (Dashboard.pending
               (Dashboard.run Dashboard.mounted busy_afternoon)) <= 1.
Proof.
  split; [reflexivity|].
  exact (proj1 (queries_never_overlap busy_afternoon)).
Defined.




(** A query answered 403 on a signed-in provider: the page shows the
    authentication error and the provider is signed out. *)
Example query_answered_forbidden :
  Dashboard.renderMainContent None
    (Dashboard.handleQuerySubmit_settle
       (snd (apiFetch_settle (Responds forbidden) signed_in_ada))
       (Dashboard.handleQuerySubmit_begin Dashboard.initial))
  = Dashboard.QueryResultContent
      (Dashboard.ResultShown
         (JObj [("error", JStr "Authentication failed (403).")]))
      true
  /\ token (auth (fst (apiFetch_settle (Responds forbidden) signed_in_ada)))
     = None.
Proof. split; reflexivity. Qed.

(** X25: the refresh counter of the page only ever goes up, by one, and
    only together with a switch to the company list; and the list is
    never entered from another view without that step.  This is the
    counter whose change makes [CompanyTable] fetch again. *)
Theorem refresh_counter_steps (p : Dashboard.Page) (e : Dashboard.Event) :
  (Dashboard.refreshData (Dashboard.page_state (Dashboard.step p e))
   = Dashboard.refreshData (Dashboard.page_state p)
   \/ (Dashboard.refreshData (Dashboard.page_state (Dashboard.step p e))
       = S (Dashboard.refreshData (Dashboard.page_state p))
       /\ Dashboard.currentView (Dashboard.page_state (Dashboard.step p e))
          = Dashboard.companies_list))
  /\ (Dashboard.currentView (Dashboard.page_state (Dashboard.step p e))
      = Dashboard.companies_list ->
      Dashboard.currentView (Dashboard.page_state p)
      <> Dashboard.companies_list ->
      Dashboard.refreshData (Dashboard.page_state (Dashboard.step p e))
      = S (Dashboard.refreshData (Dashboard.page_state p))).
Proof.
  assert (Hsame : forall a b : Dashboard.State,
             Dashboard.refreshData a = Dashboard.refreshData b ->
             (Dashboard.currentView a = Dashboard.companies_list ->
              Dashboard.currentView b = Dashboard.companies_list) ->
             (Dashboard.refreshData a = Dashboard.refreshData b
              \/ (Dashboard.refreshData a = S (Dashboard.refreshData b)
                  /\ Dashboard.currentView a = Dashboard.companies_list))
             /\ (Dashboard.currentView a = Dashboard.companies_list ->
                 Dashboard.currentView b <> Dashboard.companies_list ->
                 Dashboard.refreshData a = S (Dashboard.refreshData b))).
  { intros a b Hr Hv. split; [auto|]. intros H1 H2. elim H2. auto. }
  assert (Hbump : forall a b : Dashboard.State,
             Dashboard.refreshData a = Dashboard.refreshData b + 1 ->
             Dashboard.currentView a = Dashboard.companies_list ->
             (Dashboard.refreshData a = Dashboard.refreshData b
              \/ (Dashboard.refreshData a = S (Dashboard.refreshData b)
                  /\ Dashboard.currentView a = Dashboard.companies_list))
             /\ (Dashboard.currentView a = Dashboard.companies_list ->
                 Dashboard.currentView b <> Dashboard.companies_list ->
                 Dashboard.refreshData a = S (Dashboard.refreshData b))).
  { intros a b Hr Hv. split; [right; split; [lia|exact Hv]|intros; lia]. }
  destruct p as [st pend].
  destruct e as [a| | | |typed|i result']; cbn [Dashboard.step
    Dashboard.page_state Dashboard.pending].
  - destruct (Dashboard.action_grid_shown st); [|apply Hsame; auto].
    cbn [Dashboard.page_state]. unfold Dashboard.handleActionClick.
    destruct (a =? "View All Companies"); [apply Hbump; reflexivity|].
    destruct (a =? "Add New Company");
      (apply Hsame; [reflexivity|discriminate]).
  - destruct (Dashboard.back_button_shown st); cbn [Dashboard.page_state];
      apply Hsame; auto; discriminate.
  - apply Hbump; reflexivity.
  - destruct (Dashboard.cancel_button_shown st); cbn [Dashboard.page_state];
      apply Hsame; auto; discriminate.
  - destruct (Dashboard.input_bar_enabled st); [|apply Hsame; auto].
    destruct (NexusInputBar.handleSubmit typed); cbn [Dashboard.page_state];
      apply Hsame; auto; discriminate.
  - destruct (nth_error pend i); cbn [Dashboard.page_state];
      apply Hsame; auto.
Qed.

Lemma refresh_counter_steps_witness :
  Dashboard.refreshData
    (Dashboard.page_state
       (Dashboard.step Dashboard.mounted
                       (Dashboard.ClickAction "View All Companies")))
  = 1.
Proof.
  exact (proj2 (refresh_counter_steps Dashboard.mounted
                  (Dashboard.ClickAction "View All Companies"))
               eq_refl ltac:(discriminate)).
Defined.

(** * The company table and the company form *)

Example company_table_rows :
  CompanyTable.render
    {| CompanyTable.companies := JArr two_companies;
       CompanyTable.loading := false; CompanyTable.error := None |}
  = Returns (CompanyTable.Table
      [{| CompanyTable.key := JNum 1;
          CompanyTable.cells :=
            [CompanyTable.Value (JNum 1); CompanyTable.Value (JStr "Acme");
             CompanyTable.Literal "-"; CompanyTable.Literal "-";
             CompanyTable.Value (JStr "Porto");
             CompanyTable.Literal "Active"; CompanyTable.Literal "-"] |};
       {| CompanyTable.key := JNum 2;
          CompanyTable.cells :=
            [CompanyTable.Value (JNum 2); CompanyTable.Value (JStr "Globex");
             CompanyTable.Literal "-"; CompanyTable.Literal "-";
             CompanyTable.Literal "-";
             CompanyTable.Literal "Inactive";
             CompanyTable.LocalDate (JStr "2025-01-05")] |}]).
Proof. reflexivity. Qed.


Lemma rows_length (items : list JsVal) (body : list CompanyTable.Row) :
  CompanyTable.rows items = Returns body -> length body = length items.
Proof.
  revert body. induction items as [|c items IH]; intros body; simpl.
  - intros H. injection H as <-. reflexivity.
  - destruct (CompanyTable.row c) as [r|e]; cbn; [|discriminate].
    destruct (CompanyTable.rows items) as [rs|e]; cbn; [|discriminate].
    intros H. injection H as <-. simpl. f_equal. now apply IH.
Qed.

Lemma row_returns (company : JsVal) :
  nullish company = false ->
  exists r, CompanyTable.row company = Returns r
            /\ nth_error (CompanyTable.cells r) 5
               = Some (CompanyTable.Literal
                         (match get_prop company "status" with
                          | Returns (JNum 1) => "Active"
                          | _ => "Inactive"
                          end)).
Proof.
  intros Hn. unfold CompanyTable.row.
  destruct company; try discriminate Hn; cbn; eexists; split;
    try reflexivity.
Qed.

Lemma row_throws (company : JsVal) :
  nullish company = true -> exists e, CompanyTable.row company = Throws e.
Proof.
  destruct company; try discriminate; intros _; cbn; eauto.
Qed.

Lemma rows_outcome (items : list JsVal) :
  if existsb nullish items
  then exists e, CompanyTable.rows items = Throws e
  else exists body, CompanyTable.rows items = Returns body.
Proof.
  induction items as [|c items IH]; simpl; [eauto|].
  destruct (nullish c) eqn:Hc; simpl.
  - destruct (row_throws c Hc) as [e ->]. cbn. eauto.
  - destruct (row_returns c Hc) as (r & -> & _). cbn.
    destruct (existsb nullish items).
    + destruct IH as [e ->]. cbn. eauto.
    + destruct IH as [body ->]. cbn. eauto.
Qed.

Lemma or_dash_valid (v : JsVal) :
  CompanyTable.cell_valid (CompanyTable.or_dash v)
  = CompanyTable.valid_child v.
Proof. destruct v as [| |[|]|[|n]|[|c s]|l|f]; reflexivity. Qed.

Lemma row_cells_valid (company : JsVal) (r : CompanyTable.Row) :
  CompanyTable.row company = Returns r ->
  forallb CompanyTable.cell_valid (CompanyTable.cells r)
  = CompanyTable.fields_valid company.
Proof.
  unfold CompanyTable.row, CompanyTable.fields_valid.
  destruct company as [| |b|n|str|l|fields]; cbn [get_prop bind];
    try discriminate; intros H; injection H as <-;
    cbn [CompanyTable.cells forallb CompanyTable.cell_valid];
    rewrite ?or_dash_valid;
    try reflexivity.
  destruct (truthy (assoc "created_at" fields));
    cbn [CompanyTable.cell_valid]; rewrite ?andb_true_r; reflexivity.
Qed.

Lemma rows_valid (items : list JsVal) (body : list CompanyTable.Row) :
  CompanyTable.rows items = Returns body ->
  forallb (fun r => forallb CompanyTable.cell_valid (CompanyTable.cells r))
          body
  = forallb CompanyTable.fields_valid items.
Proof.
  revert body. induction items as [|c items IH]; intros body; simpl.
  - intros H. injection H as <-. reflexivity.
  - destruct (CompanyTable.row c) as [r|e] eqn:Hr; cbn; [|discriminate].
    destruct (CompanyTable.rows items) as [rs|e]; cbn; [|discriminate].
    intros H. injection H as <-. simpl.
    now rewrite (row_cells_valid c r Hr), (IH rs).
Qed.

(** X27: what reaches the screen for a loaded array of companies.  The
    empty array reads ["No companies found."].  A non-empty array gives
    one row per company when no entry is [null] and no company holds a
    plain object in its ID, name, contact person, email or city; a [null]
    entry makes the render throw, and such an object makes React refuse
    the rows.  A company's status cell reads ["Active"] exactly when its
    [status] is the number 1. *)
Theorem company_table_rows_shown (items : list JsVal) :
  (items = [] ->
   CompanyTable.shown (loaded items) = Returns CompanyTable.NoCompanies)
  /\ (items <> [] -> existsb nullish items = false ->
      forallb CompanyTable.fields_valid items = true ->
      exists body,
        CompanyTable.shown (loaded items)
        = Returns (CompanyTable.Table body)
        /\ length body = length items)
  /\ (existsb nullish items = true ->
      exists e, CompanyTable.shown (loaded items) = Throws e)
  /\ (existsb nullish items = false ->
      forallb CompanyTable.fields_valid items = false ->
      exists e, CompanyTable.shown (loaded items) = Throws e)
  /\ (forall status,
        CompanyTable.status_text status = "Active" <-> status = JNum 1).
Proof.
  split; [intros ->; reflexivity|].
  pose proof (rows_outcome items) as Hrows.
  assert (Hshape : forall body,
             items <> [] -> CompanyTable.rows items = Returns body ->
             CompanyTable.shown (loaded items)
             = if forallb CompanyTable.fields_valid items
               then Returns (CompanyTable.Table body)
               else Throws CompanyTable.invalid_child).
  { intros body Hne Hb. unfold CompanyTable.shown, CompanyTable.render, loaded.
    cbn [CompanyTable.loading CompanyTable.error CompanyTable.companies].
    destruct items as [|c items]; [congruence|].
    unfold CompanyTable.render_loaded. rewrite Hb. cbn [bind].
    cbn [CompanyTable.React_accepts]. rewrite (rows_valid _ _ Hb).
    reflexivity. }
  split; [|split; [|split]].
  - intros Hne Hnull Hvalid. rewrite Hnull in Hrows.
    destruct Hrows as [body Hb]. exists body.
    split; [|exact (rows_length items body Hb)].
    rewrite (Hshape body Hne Hb), Hvalid. reflexivity.
  - intros Hnull. rewrite Hnull in Hrows. destruct Hrows as [e He].
    exists e. destruct items as [|c items]; [discriminate Hnull|].
    unfold CompanyTable.shown, CompanyTable.render, loaded.
    cbn [CompanyTable.loading CompanyTable.error CompanyTable.companies].
    unfold CompanyTable.render_loaded. rewrite He. reflexivity.
  - intros Hnull Hvalid. rewrite Hnull in Hrows.
    destruct Hrows as [body Hb].
    assert (Hne : items <> []) by (intros ->; discriminate Hvalid).
    exists CompanyTable.invalid_child.
    rewrite (Hshape body Hne Hb), Hvalid. reflexivity.
  - intros status. split.
    + destruct status as [| |b|n|str|l|f]; try discriminate.
      destruct n as [|[q|q|]]; try discriminate. reflexivity.
    + intros ->. reflexivity.
Qed.

Lemma company_table_rows_shown_witness :
  (exists body,
      CompanyTable.shown (loaded two_companies)
      = Returns (CompanyTable.Table body)
      /\ length body = length two_companies)
  /\ exists e, CompanyTable.shown (loaded nested_name) = Throws e.
Proof.
  split.
  - apply (proj1 (proj2 (company_table_rows_shown two_companies)));
      [discriminate|reflexivity|reflexivity].
  - apply (proj1 (proj2 (proj2 (proj2
             (company_table_rows_shown nested_name)))));
      reflexivity.
Defined.



Lemma with_field_read (name : string) (v : JsVal)
  (fields : list (string * JsVal)) :
  assoc name (CompanyForm.with_field name v fields) = v.
Proof.
  induction fields as [|[k old] fields IH]; simpl.
  - now rewrite String.eqb_refl.
  - destruct (k =? name) eqn:E; simpl; rewrite E; [reflexivity|exact IH].
Qed.

Lemma with_field_other (name other : string) (v : JsVal)
  (fields : list (string * JsVal)) :
  other <> name ->
  assoc other (CompanyForm.with_field name v fields) = assoc other fields.
Proof.
  intros Hne. induction fields as [|[k old] fields IH]; simpl.
  - destruct (name =? other) eqn:E; [|reflexivity].
    apply String.eqb_eq in E. congruence.
  - destruct (k =? name) eqn:E; simpl.
    + apply String.eqb_eq in E. subst k.
      destruct (name =? other) eqn:E'; [|reflexivity].
      apply String.eqb_eq in E'. congruence.
    + destruct (k =? other); [reflexivity|exact IH].
Qed.

Lemma with_field_keys (name : string) (v : JsVal)
  (fields : list (string * JsVal)) :
  In name (map fst fields) ->
  map fst (CompanyForm.with_field name v fields) = map fst fields.
Proof.
  induction fields as [|[k old] fields IH]; simpl; [contradiction|].
  intros [Hk | Hin].
  - subst k. now rewrite String.eqb_refl.
  - destruct (k =? name) eqn:E; simpl; [reflexivity|].
    f_equal. exact (IH Hin).
Qed.

(** X29: typing into a field of the company form.  The field reads back
    the typed text, every other field keeps its value, and as long as the
    input carries the name of one of the form's fields the form keeps
    exactly its fields, in their order. *)
Theorem company_form_input (name value type other : string)
  (st : CompanyForm.State) :
  assoc name
    (CompanyForm.formData (CompanyForm.handleInputChange name value type st))
  = JStr value
  /\ (other <> name ->
      assoc other
        (CompanyForm.formData
           (CompanyForm.handleInputChange name value type st))
      = assoc other (CompanyForm.formData st))
  /\ (In name (map fst (CompanyForm.formData st)) ->
      map fst
        (CompanyForm.formData
           (CompanyForm.handleInputChange name value type st))
      = map fst (CompanyForm.formData st)).
Proof.
  unfold CompanyForm.handleInputChange. cbn [CompanyForm.formData].
  assert (Hv : (if (type =? "number") || (name =? "default_flat_fee")
                then value else value) = value)
    by (destruct ((type =? "number") || (name =? "default_flat_fee"));
        reflexivity).
  rewrite Hv. split; [apply with_field_read|].
  split; [apply with_field_other|apply with_field_keys].
Qed.

Lemma company_form_input_witness :
  assoc "status"
    (CompanyForm.formData
       (CompanyForm.handleInputChange "city" "Porto" "text"
                                      CompanyForm.initial))
  = JNum 1
  /\ map fst
       (CompanyForm.formData
          (CompanyForm.handleInputChange "city" "Porto" "text"
                                         CompanyForm.initial))
     = map fst CompanyForm.blank.
Proof.
  destruct (company_form_input "city" "Porto" "text" "status"
              CompanyForm.initial) as (_ & Hother & Hkeys).
  split.
  - exact (Hother ltac:(discriminate)).
  - apply Hkeys. simpl. tauto.
Defined.
